(** * pflow/data/text_mel_datamodule.py: manifest parsing, sample building
      and batch collation

    A shallow embedding of the data pipeline of [text_mel_datamodule.py]:
    [parse_filelist], [TextMelDataset] ([get_datapoint], [get_mel],
    [get_text], [__getitem__], [__len__]) and [TextMelBatchCollate]
    ([batched_encodec], [__call__]).

    Python exceptions are values of [error] carried by [result]; the global
    [random] module is an explicit generator state; the collator object is a
    record threaded through [__call__]. *)

From Stdlib Require Import String Ascii.
From Stdlib Require Import List ZArith NArith Lia Bool PeanoNat Permutation.
Import ListNotations.

Set Implicit Arguments.
Set Warnings "-abstract-large-number".

(** ** Exceptions *)

Inductive error : Type :=
| ValueError          (* max() of an empty list, str.split with an empty
                         separator, int() of a malformed literal,
                         randint over an empty range *)
| IndexError          (* list index out of range *)
| AssertionError      (* the [assert sr == self.sample_rate] of get_mel *)
| RuntimeError        (* torch: shapes that do not broadcast, a value torch
                         cannot store *)
| UnboundLocalError   (* a local variable read before any assignment *)
| OSError             (* the file cannot be opened or decoded *)
| ExternalError.      (* raised inside an external collaborator *)

Inductive result (T : Type) : Type :=
| Ok  : T -> result T
| Err : error -> result T.

Arguments Ok {T} _.
Arguments Err {T} _.

Definition bind {T U : Type} (r : result T) (k : T -> result U) : result U :=
  match r with
  | Ok v => k v
  | Err e => Err e
  end.

Notation "x <- r ;; k" := (bind r (fun x => k))
  (at level 61, r at next level, right associativity).

Definition is_ok {T : Type} (r : result T) : bool :=
  match r with Ok _ => true | Err _ => false end.

Fixpoint mapM {T U : Type} (f : T -> result U) (l : list T) : result (list U) :=
  match l with
  | [] => Ok []
  | v :: l' => u <- f v ;; us <- mapM f l' ;; Ok (u :: us)
  end.

(** ** Python strings

    A [str] is a sequence of Unicode code points. *)

Definition char : Type := N.
Definition str : Type := list char.

(** [u "..."] is the [str] of an ASCII literal. *)
Definition u (s : string) : str := map N_of_ascii (list_ascii_of_string s).

Definition LF : char := 10%N.
Definition CR : char := 13%N.

(** [str.isspace] on one code point: the code points [str.strip()] removes. *)
Definition isspace (c : char) : bool :=
  ((9 <=? c) && (c <=? 13) || (28 <=? c) && (c <=? 32)
   || (c =? 133) || (c =? 160) || (c =? 5760)
   || (8192 <=? c) && (c <=? 8202)
   || (c =? 8232) || (c =? 8233) || (c =? 8239) || (c =? 8287)
   || (c =? 12288))%N.

Fixpoint lstrip (s : str) : str :=
  match s with
  | [] => []
  | c :: s' => if isspace c then lstrip s' else s
  end.

Definition rstrip (s : str) : str := rev (lstrip (rev s)).

(** [s.strip()] *)
Definition strip (s : str) : str := rstrip (lstrip s).

Fixpoint startswith (s p : str) : bool :=
  match p, s with
  | [], _ => true
  | _ :: _, [] => false
  | a :: p', b :: s' => (a =? b)%N && startswith s' p'
  end.

(** The left-to-right scan of [s.split(sep)] for a non-empty [sep]: [skip]
    counts the characters of a matched separator still to be passed over,
    [cur] is the field being read, latest character first. *)
Fixpoint split_scan (sep s : str) (skip : nat) (cur : str) : list str :=
  match s with
  | [] => [rev cur]
  | c :: s' =>
      match skip with
      | S k => split_scan sep s' k cur
      | O =>
          if startswith s sep
          then rev cur :: split_scan sep s' (length sep - 1) []
          else split_scan sep s' 0 (c :: cur)
      end
  end.

(** [s.split(sep)]; an empty separator raises ValueError. *)
Definition split (s sep : str) : result (list str) :=
  match sep with
  | [] => Err ValueError
  | _ :: _ => Ok (split_scan sep s 0 [])
  end.

(** [sep.join(fields)] *)
Fixpoint join (sep : str) (fields : list str) : str :=
  match fields with
  | [] => []
  | a :: rest =>
      match rest with
      | [] => a
      | _ :: _ => a ++ sep ++ join sep rest
      end
  end.

(** ** Text files

    [open(path, encoding="utf-8")] reads in universal-newlines mode: CR LF
    and a lone CR arrive as LF. *)
Fixpoint universal_newlines (s : str) : str :=
  match s with
  | [] => []
  | c :: s' =>
      if (c =? CR)%N then
        match s' with
        | d :: s'' => if (d =? LF)%N then universal_newlines s'
                      else LF :: universal_newlines s'
        | [] => [LF]
        end
      else c :: universal_newlines s'
  end.

(** Iterating a text file yields its lines, each with its terminating LF; a
    last line without one is yielded when it is not empty. *)
Fixpoint lines_from (s : str) (cur : str) : list str :=
  match s with
  | [] => match cur with [] => [] | _ :: _ => [rev cur] end
  | c :: s' =>
      if (c =? LF)%N then rev (c :: cur) :: lines_from s' []
      else lines_from s' (c :: cur)
  end.

Definition file_lines (content : str) : list str :=
  lines_from (universal_newlines content) [].

(** A manifest record is the list of fields of one line. *)
Definition record : Type := list str.

Section Manifest.

(** The file system: the decoded content of a path, or the error of
    [open]. *)
Variable read_file : str -> result str.

(** [parse_filelist(filelist_path, split_char="|")] *)
Definition parse_filelist (filelist_path : str) (split_char : str)
  : result (list record) :=
  content <- read_file filelist_path ;;
  mapM (fun line => split (strip line) split_char) (file_lines content).

End Manifest.

Definition default_split_char : str := u "|".

(** ** Python lists *)

(** [l[i]] for a non-negative literal index. *)
Definition getitem {T : Type} (l : list T) (i : nat) : result T :=
  match nth_error l i with
  | Some v => Ok v
  | None => Err IndexError
  end.

(** [l[index]] for any integer: a negative index counts from the end. *)
Definition getitem_int {T : Type} (l : list T) (index : Z) : result T :=
  let n := Z.of_nat (length l) in
  if (0 <=? index)%Z && (index <? n)%Z then getitem l (Z.to_nat index)
  else if (- n <=? index)%Z && (index <? 0)%Z then getitem l (Z.to_nat (n + index))
  else Err IndexError.

Fixpoint set_nth {T : Type} (l : list T) (i : nat) (v : T) : list T :=
  match l, i with
  | [], _ => []
  | _ :: l', O => v :: l'
  | a :: l', S i' => a :: set_nth l' i' v
  end.

(** [l[i], l[j] = l[j], l[i]] *)
Definition swap {T : Type} (l : list T) (i j : nat) : list T :=
  match nth_error l i, nth_error l j with
  | Some a, Some b => set_nth (set_nth l i b) j a
  | _, _ => l
  end.

(** [max(l)] *)
Definition py_max (l : list nat) : result nat :=
  match l with
  | [] => Err ValueError
  | a :: l' => Ok (fold_left Nat.max l' a)
  end.

(** ** The [random] module

    The module-level generator is one hidden state shared by every caller. *)
Section Random.

Variable rng : Type.
(** One raw output of the generator and its next state. *)
Variable next_raw : rng -> nat * rng.

(** [_randbelow(n)] for [n > 0]: a draw in [0, n). *)
Definition randbelow (n : nat) (st : rng) : nat * rng :=
  let (r, st') := next_raw st in (r mod n, st').

(** [random.randint(a, b)]: a draw in [a, b], both ends included; an
    empty range raises ValueError. *)
Definition randint (a b : Z) (st : rng) : result Z * rng :=
  let width := (b + 1 - a)%Z in
  if (0 <? width)%Z then
    let (r, st') := randbelow (Z.to_nat width) st in
    (Ok (a + Z.of_nat r)%Z, st')
  else (Err ValueError, st).

(** The loop of [random.shuffle(x)]:
    [for i in reversed(range(1, len(x))): j = randbelow(i + 1); swap]. *)
Fixpoint shuffle_from {T : Type} (i : nat) (l : list T) (st : rng)
  : list T * rng :=
  match i with
  | O => (l, st)
  | S i' =>
      let (j, st') := randbelow (S i) st in
      shuffle_from i' (swap l i j) st'
  end.

Definition shuffle {T : Type} (l : list T) (st : rng) : list T * rng :=
  shuffle_from (length l - 1) l st.

End Random.

(** ** Tensors

    A tensor carries its shape; its entries are nested row lists. *)

Record Tensor2 (T : Type) : Type := mkTensor2 {
  shape2 : nat * nat;
  data2 : list (list T)
}.

Record Tensor3 (T : Type) : Type := mkTensor3 {
  shape3 : nat * nat * nat;
  data3 : list (list (list T))
}.

(** The nested lists agree with the shape: [n] rows of [w] entries. *)
Definition well_shaped_rows {T : Type} (n w : nat) (rows : list (list T)) : bool :=
  (length rows =? n) && forallb (fun r => length r =? w) rows.

Definition well_shaped2 {T : Type} (t : Tensor2 T) : bool :=
  well_shaped_rows (fst (shape2 t)) (snd (shape2 t)) (data2 t).

Definition well_shaped3 {T : Type} (t : Tensor3 T) : bool :=
  let '(b, n, w) := shape3 t in
  (length (data3 t) =? b) && forallb (well_shaped_rows n w) (data3 t).

(** [t.shape[-1]] and [t.shape[-2]] *)
Definition last_dim2 {T : Type} (t : Tensor2 T) : nat := snd (shape2 t).
Definition rows_dim2 {T : Type} (t : Tensor2 T) : nat := fst (shape2 t).
Definition last_dim3 {T : Type} (t : Tensor3 T) : nat := snd (shape3 t).

(** [t[:, :stop]] *)
Definition slice_cols {T : Type} (t : Tensor2 T) (stop : nat) : Tensor2 T :=
  {| shape2 := (rows_dim2 t, Nat.min stop (last_dim2 t));
     data2 := map (firstn stop) (data2 t) |}.

(** Broadcasting one axis of length [len] to length [n]: possible when the
    lengths agree or [len] is 1. *)
Definition broadcasts (len n : nat) : bool := (len =? n) || (len =? 1).

(** The axis [l] broadcast to length [n]: itself when the lengths agree,
    its single entry repeated when it has one. *)
Definition expand {T : Type} (n : nat) (l : list T) : list T :=
  if length l =? n then l
  else match l with
       | [v] => repeat v n
       | _ => l
       end.

(** Writing [src] over the front of [dst]. *)
Definition overwrite {T : Type} (dst src : list T) : list T :=
  src ++ skipn (length src) dst.

(** Writing each row of [rows] over the front of the row of [block] it
    meets. *)
Definition paste_rows {T : Type} (block rows : list (list T)) : list (list T) :=
  map (fun p => overwrite (fst p) (snd p)) (combine block rows).

(** [t[i, :stop] = src] for a 2-D [t] and a 1-D [src]. *)
Definition setitem2 {T : Type} (t : Tensor2 T) (i stop : nat) (src : list T)
  : result (Tensor2 T) :=
  row <- getitem (data2 t) i ;;
  let width := Nat.min stop (last_dim2 t) in
  if broadcasts (length src) width then
    Ok {| shape2 := shape2 t;
          data2 := set_nth (data2 t) i (overwrite row (expand width src)) |}
  else Err RuntimeError.

(** [t[i, :, :stop] = src] for a 3-D [t] and a 2-D [src]. *)
Definition setitem3 {T : Type} (t : Tensor3 T) (i stop : nat) (src : Tensor2 T)
  : result (Tensor3 T) :=
  block <- getitem (data3 t) i ;;
  let '(_, n, w) := shape3 t in
  let width := Nat.min stop w in
  if broadcasts (rows_dim2 src) n && broadcasts (last_dim2 src) width then
    let rows := expand n (map (expand width) (data2 src)) in
    Ok {| shape3 := shape3 t;
          data3 := set_nth (data3 t) i (paste_rows block rows) |}
  else Err RuntimeError.

(** The rows that [t[i, :, :src.shape[-1]] = src] leaves at index [i] of a
    tensor of shape [shape] whose rows there were [block]. *)
Definition pasted {T : Type} (shape : nat * nat * nat) (block : list (list T))
    (src : Tensor2 T) : list (list T) :=
  paste_rows block
    (expand (snd (fst shape))
       (map (expand (Nat.min (last_dim2 src) (snd shape))) (data2 src))).

(** [rows[:, :stop]] and [rows[:, start:]] on the rows of one batch entry. *)
Definition cols_to {T : Type} (rows : list (list T)) (stop : nat) : list (list T) :=
  map (firstn stop) rows.
Definition cols_from {T : Type} (rows : list (list T)) (start : nat) : list (list T) :=
  map (skipn start) rows.

(** Every entry of the rows is [v]. *)
Definition all_equal_to {T : Type} (v : T) (rows : list (list T)) : Prop :=
  Forall (Forall (eq v)) rows.

(** [torch.zeros(shape)] *)
Definition zeros2 {T : Type} (zero : T) (b w : nat) : Tensor2 T :=
  {| shape2 := (b, w); data2 := repeat (repeat zero w) b |}.

Definition zeros3 {T : Type} (zero : T) (b n w : nat) : Tensor3 T :=
  {| shape3 := (b, n, w); data3 := repeat (repeat (repeat zero w) n) b |}.

(** ** pflow.utils: helpers the data module imports *)

Section Helpers.

(** The number of down-samplings of the decoder. *)
Variable num_downsamplings : nat.

(** Modelled from the spec: the compatibility factor belongs to
    [pflow.utils.model], which is not among the sources. The spec has it as
    a fixed small power of two tied to the down-sampling depth of the
    model. *)
Definition compatibility_factor : nat := 2 ^ num_downsamplings.

(** Modelled from the spec: [pflow.utils.model.fix_len_compatibility] is
    not among the sources. The spec gives it as
    [ceil(max_len / factor) * factor] when [max_len] is not already a
    multiple of the factor, else unchanged, the factor being a fixed small
    power of two. *)
Definition fix_len_compatibility (length : nat) : nat :=
  if length mod compatibility_factor =? 0 then length
  else (length / compatibility_factor + 1) * compatibility_factor.

(** Modelled from the spec: [pflow.utils.utils.intersperse] is not among
    the sources. The spec has the blank id between every adjacent pair of
    symbols, and before the first and after the last. *)
Fixpoint intersperse {T : Type} (lst : list T) (item : T) : list T :=
  match lst with
  | [] => [item]
  | s :: lst' => item :: s :: intersperse lst' item
  end.

End Helpers.

(** ** TextMelDataset *)

(** One sample, the dict [{"x": ..., "y": ..., "spk": ..., "wav": ...}]:
    the symbol ids, the mel-spectrogram [n_mels x frames], the speaker id or
    None, the audio [channels x samples]. *)
Record Sample (F : Type) : Type := mkSample {
  s_x : list Z;
  s_y : Tensor2 F;
  s_spk : option Z;
  s_wav : Tensor2 F
}.

Record TextMelDataset (F : Type) : Type := mkDataset {
  filepaths_and_text : list record;
  n_spks : Z;
  cleaners : list str;
  add_blank : bool;
  n_fft : Z;
  n_mels : Z;
  sample_rate : Z;
  hop_length : Z;
  win_length : Z;
  f_min : F;
  f_max : F;
  data_parameters : F * F     (* mel_mean, mel_std *)
}.

Section Dataset.

(** float32 values: the pipeline only moves them around. *)
Variable F : Type.
Variables zero one : F.

Variable rng : Type.
Variable next_raw : rng -> nat * rng.
(** [random.seed(seed)] *)
Variable random_seed : option Z -> rng.

Variable read_file : str -> result str.

(** Functions of other modules, taken as they are called. *)
(** [torchaudio.load(path)]: the audio and its sample rate. *)
Variable ta_load : str -> result (Tensor2 F * Z).
(** [mel_spectrogram(audio, n_fft, n_mels, sample_rate, hop_length,
    win_length, f_min, f_max, center).squeeze()] *)
Variable mel_spectrogram :
  Tensor2 F -> Z -> Z -> Z -> Z -> Z -> F -> F -> bool -> result (Tensor2 F).
(** [normalize(mel, mel_mean, mel_std)] *)
Variable normalize : Tensor2 F -> F -> F -> Tensor2 F.
(** [text_to_sequence(text, cleaners)] *)
Variable text_to_sequence : str -> list str -> result (list Z).
(** [int(s)] *)
Variable py_int : str -> result Z.

(** [TextMelDataset.__init__]; the generator state after the shuffle is
    what later [random] calls start from. *)
Definition TextMelDataset_init
    (filelist_path : str) (n_spks : Z) (cleaners : list str)
    (add_blank : bool) (n_fft n_mels sample_rate hop_length win_length : Z)
    (f_min f_max : F) (data_parameters : option (F * F)) (seed : option Z)
  : result (TextMelDataset F * rng) :=
  recs <- parse_filelist read_file filelist_path default_split_char ;;
  let params := match data_parameters with
                | Some p => p
                | None => (zero, one)
                end in
  let (shuffled, st) := shuffle next_raw recs (random_seed seed) in
  Ok ({| filepaths_and_text := shuffled; n_spks := n_spks;
         cleaners := cleaners; add_blank := add_blank; n_fft := n_fft;
         n_mels := n_mels; sample_rate := sample_rate;
         hop_length := hop_length; win_length := win_length;
         f_min := f_min; f_max := f_max; data_parameters := params |}, st).

Variable self : TextMelDataset F.

(** [get_mel]: the assert raises AssertionError on a sample-rate
    mismatch. *)
Definition get_mel (filepath : str) : result (Tensor2 F * Tensor2 F) :=
  loaded <- ta_load filepath ;;
  let (audio, sr) := loaded in
  if (sr =? sample_rate self)%Z then
    mel <- mel_spectrogram audio (n_fft self) (n_mels self)
             (sample_rate self) (hop_length self) (win_length self)
             (f_min self) (f_max self) false ;;
    let mel := normalize mel (fst (data_parameters self))
                 (snd (data_parameters self)) in
    Ok (mel, audio)
  else Err AssertionError.

(** [get_text]: the parameter [add_blank] is not read, the flag of the
    dataset is. [torch.IntTensor] keeps the ids, which index the symbol
    table. *)
Definition get_text (text : str) (add_blank_arg : bool) : result (list Z) :=
  text_norm <- text_to_sequence text (cleaners self) ;;
  let text_norm := if add_blank self then intersperse text_norm 0%Z
                   else text_norm in
  Ok text_norm.

Definition get_datapoint (filepath_and_text : record) : result (Sample F) :=
  fields <-
    (if (1 <? n_spks self)%Z then
       filepath <- getitem filepath_and_text 0 ;;
       spk_field <- getitem filepath_and_text 1 ;;
       spk <- py_int spk_field ;;
       text <- getitem filepath_and_text 2 ;;
       Ok (filepath, Some spk, text)
     else
       filepath <- getitem filepath_and_text 0 ;;
       text <- getitem filepath_and_text 1 ;;
       Ok (filepath, None, text)) ;;
  let '(filepath, spk, text) := fields in
  text <- get_text text (add_blank self) ;;
  mel_audio <- get_mel filepath ;;
  let (mel, audio) := mel_audio in
  Ok {| s_x := text; s_y := mel; s_spk := spk; s_wav := audio |}.

(** [__len__] *)
Definition len : nat := length (filepaths_and_text self).

(** Three seconds of audio at 22050 Hz. *)
Definition min_wav_length : nat := 66150.

(** [__getitem__]: each unit of [fuel] is one activation of the method;
    [None] is a recursion deeper than [fuel]. *)
Fixpoint getitem_dataset (fuel : nat) (index : Z) (st : rng)
  : option (result (Sample F) * rng) :=
  match fuel with
  | O => None
  | S fuel' =>
      match (rec <- getitem_int (filepaths_and_text self) index ;;
             get_datapoint rec) with
      | Err e => Some (Err e, st)
      | Ok datapoint =>
          if last_dim2 (s_wav datapoint) <? min_wav_length then
            match randint next_raw 0 (Z.of_nat len - 1) st with
            | (Ok j, st') => getitem_dataset fuel' j st'
            | (Err e, st') => Some (Err e, st')
            end
          else Some (Ok datapoint, st)
      end
  end.

End Dataset.

(** A sample whose mel is a rectangular tensor of [n_mels] rows, as
    [get_datapoint] builds it for a dataset configured with [n_mels]. *)
Definition mel_ok {F : Type} (n_mels : nat) (s : Sample F) : bool :=
  well_shaped2 (s_y s) && (rows_dim2 (s_y s) =? n_mels).

(** A sample as [get_datapoint] builds it from a one-channel file for a
    dataset configured with [n_mels]. *)
Definition sample_ok {F : Type} (n_mels : nat) (s : Sample F) : bool :=
  mel_ok n_mels s && well_shaped2 (s_wav s) && (rows_dim2 (s_wav s) =? 1).

(** What the loop of the collator needs of an item: the mel rows of the
    batch, a mel and a symbol sequence within the padded sizes, one audio
    channel. *)
Definition fits {F : Type} (n Ty Tx : nat) (item : Sample F) : Prop :=
  rows_dim2 (s_y item) = n
  /\ last_dim2 (s_y item) <= Ty
  /\ length (s_x item) <= Tx
  /\ rows_dim2 (s_wav item) = 1.

(** ** TextMelBatchCollate *)

(** The collator object: its two attributes and the mode of the codec
    module ([training] is True on a freshly built [EncodecWrapper]). *)
Record TextMelBatchCollate : Type := mkCollate {
  c_n_spks : Z;
  get_codes : bool;
  encodec_training : bool
}.

(** [TextMelBatchCollate.__init__(n_spks, get_codes=True)] *)
Definition TextMelBatchCollate_init (n_spks : Z) (get_codes : bool)
  : TextMelBatchCollate :=
  {| c_n_spks := n_spks; get_codes := get_codes; encodec_training := true |}.

(** The returned dict. *)
Record Batch (F C : Type) : Type := mkBatch {
  b_x : Tensor2 Z;
  b_x_lengths : list nat;
  b_y : Tensor3 F;
  b_y_lengths : list nat;
  b_spks : option (list Z);
  b_wav : Tensor3 F;
  b_wav_lengths : list nat;
  b_codes : C;
  b_codes_lengths : option (list nat);
  b_prompt_spec : Tensor3 F;
  b_prompt_lengths : list nat;
  b_prompt_codes : C;
  b_prompt_codes_lengths : option (list nat)
}.

(** The tensors and lists the loop of [__call__] fills. *)
Record Filled (F : Type) : Type := mkFilled {
  f_y : Tensor3 F;
  f_x : Tensor2 Z;
  f_wav : Tensor3 F;
  f_y_lengths : list nat;
  f_x_lengths : list nat;
  f_wav_lengths : list nat;
  f_spks : list (option Z)
}.

Section Collate.

Variable F : Type.
Variable zero : F.
Variable num_downsamplings : nat.

(** The codec's output. *)
Variable C : Type.
(** [self.encodec(wav, curtail_from_left=True, return_encoded=True)[0]],
    given the mode of the module. *)
Variable encodec : bool -> Tensor3 F -> result C.
(** [codes.squeeze(0).transpose(1, 2)] *)
Variable squeeze_transpose : C -> result C.

Definition int64_min : Z := (- 2 ^ 63)%Z.
Definition int64_max : Z := (2 ^ 63 - 1)%Z.

(** [torch.tensor(spks, dtype=torch.long)]: every entry must be an
    integer that fits. *)
Definition tensor_long (spks : list (option Z)) : result (list Z) :=
  mapM (fun s => match s with
                 | Some v => if (int64_min <=? v)%Z && (v <=? int64_max)%Z
                             then Ok v else Err RuntimeError
                 | None => Err RuntimeError
                 end) spks.

(** [batched_encodec]: the module is put in evaluation mode, then called. *)
Definition batched_encodec (self : TextMelBatchCollate) (wav : Tensor3 F)
  : result C * TextMelBatchCollate :=
  let self' := {| c_n_spks := c_n_spks self; get_codes := get_codes self;
                  encodec_training := false |} in
  (encodec (encodec_training self') wav, self').

(** The truncated audio of one item (line 237). *)
Definition truncated_wav (wav_max_length : nat) (item : Sample F) : Tensor2 F :=
  if wav_max_length <? last_dim2 (s_wav item)
  then slice_cols (s_wav item) wav_max_length
  else s_wav item.

(** One iteration of the loop of [__call__]. *)
Definition collate_step (wav_max_length : nat) (a : Filled F) (i : nat)
    (item : Sample F) : result (Filled F) :=
  let y_ := s_y item in
  let x_ := s_x item in
  let wav_ := truncated_wav wav_max_length item in
  y' <- setitem3 (f_y a) i (last_dim2 y_) y_ ;;
  x' <- setitem2 (f_x a) i (length x_) x_ ;;
  wav' <- setitem3 (f_wav a) i (last_dim2 wav_) wav_ ;;
  Ok {| f_y := y'; f_x := x'; f_wav := wav';
        f_y_lengths := f_y_lengths a ++ [last_dim2 y_];
        f_x_lengths := f_x_lengths a ++ [length x_];
        f_wav_lengths := f_wav_lengths a ++ [last_dim2 wav_];
        f_spks := f_spks a ++ [s_spk item] |}.

(** [for i, item in enumerate(batch)], from index [i] on. *)
Fixpoint collate_loop (wav_max_length : nat) (a : Filled F) (i : nat)
    (batch : list (Sample F)) : result (Filled F) :=
  match batch with
  | [] => Ok a
  | item :: rest =>
      a' <- collate_step wav_max_length a i item ;;
      collate_loop wav_max_length a' (S i) rest
  end.

(** Lines 222 to 244: the sizes, the zero tensors and the loop. *)
Definition collate_fill (batch : list (Sample F)) : result (Filled F) :=
  let B := length batch in
  y_max_length <- py_max (map (fun item => last_dim2 (s_y item)) batch) ;;
  let y_max_length := fix_len_compatibility num_downsamplings y_max_length in
  let wav_max_length := y_max_length * 256 in
  x_max_length <- py_max (map (fun item => length (s_x item)) batch) ;;
  first <- getitem batch 0 ;;
  let n_feats := rows_dim2 (s_y first) in
  collate_loop wav_max_length
    {| f_y := zeros3 zero B n_feats y_max_length;
       f_x := zeros2 0%Z B x_max_length;
       f_wav := zeros3 zero B 1 wav_max_length;
       f_y_lengths := []; f_x_lengths := []; f_wav_lengths := [];
       f_spks := [] |} 0 batch.

(** A local variable that is assigned on one branch only: [None] is
    unbound, and reading it raises UnboundLocalError. *)
Definition read_local {T : Type} (v : option T) : result T :=
  match v with
  | Some t => Ok t
  | None => Err UnboundLocalError
  end.

(** Lines 246 to 270, after the loop. [codes] and the list
    [codes_lengths] are bound only when [get_codes] is set. *)
Definition collate_finish (self : TextMelBatchCollate) (a : Filled F)
  : result (Batch F C) * TextMelBatchCollate :=
  let '(locals, self') :=
    if get_codes self then
      let (r, self') := batched_encodec self (f_wav a) in
      (codes <- r ;;
       let codes_lengths := map (fun wav_len => 1 + wav_len / 320)
                              (f_wav_lengths a) in
       codes <- squeeze_transpose codes ;;
       Ok (Some codes, Some codes_lengths), self')
    else (Ok (None, None), self) in
  (vars <- locals ;;
   let '(codes, codes_lengths_list) := vars in
   let y_lengths := f_y_lengths a in
   let x_lengths := f_x_lengths a in
   let wav_lengths := f_wav_lengths a in
   spks <- (if (1 <? c_n_spks self)%Z
            then v <- tensor_long (f_spks a) ;; Ok (Some v)
            else Ok None) ;;
   codes_lengths <- (if get_codes self
                     then v <- read_local codes_lengths_list ;; Ok (Some v)
                     else Ok None) ;;
   codes <- read_local codes ;;
   Ok {| b_x := f_x a; b_x_lengths := x_lengths;
         b_y := f_y a; b_y_lengths := y_lengths;
         b_spks := spks;
         b_wav := f_wav a; b_wav_lengths := wav_lengths;
         b_codes := codes; b_codes_lengths := codes_lengths;
         b_prompt_spec := f_y a; b_prompt_lengths := y_lengths;
         b_prompt_codes := codes;
         b_prompt_codes_lengths := codes_lengths |},
   self').

(** [TextMelBatchCollate.__call__] *)
Definition collate_call (self : TextMelBatchCollate) (batch : list (Sample F))
  : result (Batch F C) * TextMelBatchCollate :=
  match collate_fill batch with
  | Err e => (Err e, self)
  | Ok a => collate_finish self a
  end.

End Collate.

(** ** TextMelDataModule *)

Record HParams : Type := mkHParams {
  hp_n_spks : Z;
  hp_hop_length : Z;
  hp_batch_size : nat
}.

(** The [collate_fn] of [train_dataloader] and [val_dataloader]:
    [TextMelBatchCollate(self.hparams.n_spks)]. *)
Definition dataloader_collate_fn (hparams : HParams) : TextMelBatchCollate :=
  TextMelBatchCollate_init (hp_n_spks hparams) true.

(** ** Concrete instances

    Small manifests, datasets and batches on which the definitions are
    run. Values are integers standing for float32 entries. *)

(** Lines that count as non-empty: something is left after stripping. *)
Definition nonempty_lines (content : str) : list str :=
  filter (fun line => match strip line with [] => false | _ :: _ => true end)
    (file_lines content).

(** A manifest with a blank second line. *)
Definition manifest_blank : str :=
  u "a.wav|hello" ++ [LF] ++ [LF] ++ u "b.wav|world" ++ [LF].

Definition fs_blank (path : str) : result str := Ok manifest_blank.

(** The one-channel tensor of the given samples. *)
Definition mono (samples : list Z) : Tensor2 Z :=
  {| shape2 := (1, length samples); data2 := [samples] |}.

(** The one-channel tensor of [n] samples, all [v]. *)
Definition constant_audio (n : nat) (v : Z) : Tensor2 Z :=
  {| shape2 := (1, n); data2 := [repeat v n] |}.

(** The audio files: a.wav has 50000 samples at 22050 Hz, b.wav has 70000
    samples at 22050 Hz, c.wav has 70000 samples at 16000 Hz; nothing else
    can be opened. *)
Definition ta_load_demo (path : str) : result (Tensor2 Z * Z) :=
  if startswith path (u "a") then Ok (constant_audio 50000 1%Z, 22050%Z)
  else if startswith path (u "b") then Ok (constant_audio 70000 2%Z, 22050%Z)
  else if startswith path (u "c") then Ok (constant_audio 70000 3%Z, 16000%Z)
  else Err OSError.

(** A stand-in spectrogram: two mel rows, one frame per [hop_length]
    samples. *)
Definition mel_demo (audio : Tensor2 Z) (n_fft n_mels sr hop win : Z)
    (f_min f_max : Z) (center : bool) : result (Tensor2 Z) :=
  let frames := last_dim2 audio / Z.to_nat hop in
  Ok {| shape2 := (2, frames); data2 := repeat (repeat 5%Z frames) 2 |}.

Definition normalize_demo (mel : Tensor2 Z) (mean std : Z) : Tensor2 Z := mel.

Definition text_to_sequence_demo (text : str) (cleaners : list str)
  : result (list Z) :=
  Ok (map Z.of_N text).

Definition py_int_demo (s : str) : result Z := Err ValueError.

(** A generator whose state is a counter and whose raw outputs are the
    counter itself. *)
Definition next_raw_demo (st : nat) : nat * nat := (st, S st).

Definition dataset_demo (records : list record) : TextMelDataset Z :=
  {| filepaths_and_text := records; n_spks := 1; cleaners := [];
     add_blank := true; n_fft := 1024; n_mels := 80; sample_rate := 22050;
     hop_length := 256; win_length := 1024; f_min := 0%Z; f_max := 8000%Z;
     data_parameters := (0, 1)%Z |}.

(** A dataset read from a manifest, with the defaults of the constructor
    and the seed 1234. *)
Definition dataset_init_demo (read_file : str -> result str) (path : str)
  : result (TextMelDataset Z * nat) :=
  TextMelDataset_init 0%Z 1%Z next_raw_demo (fun _ => 0) read_file path
    1 [] true 1024 80 22050 256 1024 0%Z 8000%Z None (Some 1234%Z).

Definition records_two : list record :=
  [[u "a.wav"; u "hello"]; [u "b.wav"; u "world"]].

(** The sample [get_datapoint] builds from the record of b.wav. *)
Definition datapoint_b : Sample Z :=
  {| s_x := intersperse (map Z.of_N (u "world")) 0%Z;
     s_y := {| shape2 := (2, 273); data2 := repeat (repeat 5%Z 273) 2 |};
     s_spk := None;
     s_wav := constant_audio 70000 2%Z |}.

(** The sample [get_datapoint] builds from the record of a.wav, and a
    dataset that has this record only. *)
Definition datapoint_a : Sample Z :=
  {| s_x := intersperse (map Z.of_N (u "hello")) 0%Z;
     s_y := {| shape2 := (2, 195); data2 := repeat (repeat 5%Z 195) 2 |};
     s_spk := None;
     s_wav := constant_audio 50000 1%Z |}.

Definition records_short : list record := [[u "a.wav"; u "hello"]].

(** Two samples with speaker ids, for a collator with two speakers. *)
Definition sample_spk (id : Z) : Sample Z :=
  {| s_x := [1; 2]%Z;
     s_y := {| shape2 := (1, 2); data2 := [[1; 2]]%Z |};
     s_spk := Some id;
     s_wav := mono [7; 8; 9]%Z |}.

Definition batch_spk : list (Sample Z) := [sample_spk 4; sample_spk 0].

(** A codec that raises on every input. *)
Definition codec_broken (training : bool) (wav : Tensor3 Z) : result nat :=
  Err ExternalError.

(** Two samples for the collator: mels of 3 and 5 frames with two rows
    each, audio of 5 and of 2100 samples. *)
Definition sample_short : Sample Z :=
  {| s_x := [1; 2; 3]%Z;
     s_y := {| shape2 := (2, 3); data2 := [[1; 2; 3]; [4; 5; 6]]%Z |};
     s_spk := None;
     s_wav := mono [7; 8; 9; 10; 11]%Z |}.

Definition sample_long : Sample Z :=
  {| s_x := [1; 2]%Z;
     s_y := {| shape2 := (2, 5);
               data2 := [[1; 2; 3; 4; 5]; [6; 7; 8; 9; 10]]%Z |};
     s_spk := None;
     s_wav := constant_audio 2100 9%Z |}.

Definition batch_pair : list (Sample Z) := [sample_short; sample_long].

(** A stand-in codec: it refuses to run in training mode and answers with
    the number of frames of 320 samples. *)
Definition codec_demo (training : bool) (wav : Tensor3 Z) : result nat :=
  if training then Err ExternalError else Ok (1 + last_dim3 wav / 320).

Definition squeeze_transpose_demo (codes : nat) : result nat := Ok codes.

Definition hparams_256 : HParams :=
  {| hp_n_spks := 1; hp_hop_length := 256; hp_batch_size := 2 |}.

Definition hparams_512 : HParams :=
  {| hp_n_spks := 1; hp_hop_length := 512; hp_batch_size := 2 |}.

(** The collator of the data loaders, run with two down-samplings. *)
Definition collate_demo (hparams : HParams) (batch : list (Sample Z))
  : result (Batch Z nat) * TextMelBatchCollate :=
  collate_call 0%Z 2 codec_demo squeeze_transpose_demo
    (dataloader_collate_fn hparams) batch.

(** * Properties *)

(** ** The result monad *)

Lemma bind_ok {T U : Type} (r : result T) (k : T -> result U) (v : U) :
  bind r k = Ok v -> exists t, r = Ok t /\ k t = Ok v.
Proof.
  destruct r as [t | e]; simpl; intros H.
  - exists t. split; [reflexivity | exact H].
  - discriminate H.
Qed.

Ltac bind_inv H :=
  let t := fresh "v" in
  let E := fresh "E" in
  apply bind_ok in H; destruct H as [t [E H]].

(** ** Lists *)

Lemma set_nth_length {T : Type} (l : list T) (i : nat) (v : T) :
  length (set_nth l i v) = length l.
Proof.
  revert i. induction l as [| a l IH]; intros [| i]; simpl; auto.
Qed.

Lemma set_nth_same {T : Type} (l : list T) (i : nat) (v : T) :
  i < length l -> nth_error (set_nth l i v) i = Some v.
Proof.
  revert i. induction l as [| a l IH]; intros [| i]; simpl; intros H;
    try lia; auto. apply IH. lia.
Qed.

Lemma set_nth_other {T : Type} (l : list T) (i k : nat) (v : T) :
  k <> i -> nth_error (set_nth l i v) k = nth_error l k.
Proof.
  revert i k. induction l as [| a l IH]; intros [| i] [| k]; simpl; intros H;
    try congruence; auto.
Qed.

Lemma swap_length {T : Type} (l : list T) (i j : nat) :
  length (swap l i j) = length l.
Proof.
  unfold swap. destruct (nth_error l i); [| reflexivity].
  destruct (nth_error l j); [| reflexivity].
  now rewrite !set_nth_length.
Qed.

Lemma fold_max_ge (l : list nat) (a : nat) :
  a <= fold_left Nat.max l a /\ Forall (fun v => v <= fold_left Nat.max l a) l.
Proof.
  revert a. induction l as [| b l IH]; simpl; intros a.
  - split; [lia | constructor].
  - destruct (IH (Nat.max a b)) as [H1 H2]. split; [lia |].
    constructor; [lia | assumption].
Qed.

Lemma fold_max_in (l : list nat) (a : nat) :
  fold_left Nat.max l a = a \/ In (fold_left Nat.max l a) l.
Proof.
  revert a. induction l as [| b l IH]; simpl; intros a.
  - left. reflexivity.
  - destruct (IH (Nat.max a b)) as [H | H].
    + rewrite H. destruct (Nat.max_spec a b) as [[_ E] | [_ E]]; rewrite E; auto.
    + right. right. assumption.
Qed.

Lemma py_max_spec (l : list nat) (m : nat) :
  py_max l = Ok m -> Forall (fun v => v <= m) l /\ In m l.
Proof.
  destruct l as [| a l]; simpl; intros H; [discriminate |].
  inversion H; subst. destruct (fold_max_ge l a) as [H1 H2]. split.
  - constructor; assumption.
  - destruct (fold_max_in l a) as [E | E]; [left; symmetry; exact E | right; exact E].
Qed.

Lemma py_max_total (l : list nat) : l <> [] -> exists m, py_max l = Ok m.
Proof.
  destruct l as [| a l]; [congruence |]. intros _. eexists. reflexivity.
Qed.

(** ** parse_filelist and __len__ *)

Lemma shuffle_from_length {rng T : Type} (next_raw : rng -> nat * rng)
    (i : nat) (l : list T) (st : rng) :
  length (fst (shuffle_from next_raw i l st)) = length l.
Proof.
  revert l st. induction i as [| i IH]; intros l st; simpl; [reflexivity |].
  unfold randbelow. destruct (next_raw st) as [r st'].
  rewrite IH. apply swap_length.
Qed.

Lemma shuffle_length {rng T : Type} (next_raw : rng -> nat * rng)
    (l : list T) (st : rng) :
  length (fst (shuffle next_raw l st)) = length l.
Proof. apply shuffle_from_length. Qed.

Lemma parse_filelist_records (read_file : str -> result str)
    (path sep content : str) :
  read_file path = Ok content -> sep <> [] ->
  parse_filelist read_file path sep
  = Ok (map (fun line => split_scan sep (strip line) 0 []) (file_lines content)).
Proof.
  intros Hread Hsep. unfold parse_filelist. rewrite Hread. simpl.
  destruct sep as [| c sep]; [congruence |].
  induction (file_lines content) as [| line ls IH]; [reflexivity |].
  cbn [mapM map]. rewrite IH. reflexivity.
Qed.

Lemma TextMelDataset_init_len (F rng : Type) (zero one : F)
    (next_raw : rng -> nat * rng) (random_seed : option Z -> rng)
    (read_file : str -> result str) path n_spks cleaners add_blank n_fft n_mels
    sample_rate hop_length win_length f_min f_max data_parameters seed ds st :
  TextMelDataset_init zero one next_raw random_seed read_file path
    n_spks cleaners add_blank n_fft n_mels sample_rate hop_length
    win_length f_min f_max data_parameters seed = Ok (ds, st) ->
  exists recs,
    parse_filelist read_file path default_split_char = Ok recs
    /\ len ds = length recs.
Proof.
  unfold TextMelDataset_init. intros H. bind_inv H.
  exists v. split; [assumption |].
  pose proof (shuffle_length next_raw v (random_seed seed)) as Hlen.
  destruct (shuffle next_raw v (random_seed seed)) as [sh st0].
  inversion H; subst. exact Hlen.
Qed.

(** C7 (as amended): for a readable manifest, [parse_filelist] produces one
    record per line of the file, blank lines included: record [i] is line
    [i] stripped and split on the separator, a line that strips to nothing
    gives the record with one empty field, and the length of a dataset built
    from the manifest is the number of records. *)
Theorem parse_filelist_one_record_per_line :
  forall (read_file : str -> result str) (path sep content : str),
    read_file path = Ok content -> sep <> [] ->
    exists recs,
      parse_filelist read_file path sep = Ok recs
      /\ length recs = length (file_lines content)
      /\ (forall i line, nth_error (file_lines content) i = Some line ->
            exists r, nth_error recs i = Some r
                      /\ split (strip line) sep = Ok r
                      /\ (strip line = [] -> r = [[]]))
      /\ (forall (F rng : Type) (zero one : F) (next_raw : rng -> nat * rng)
                 (random_seed : option Z -> rng)
                 n_spks cleaners add_blank n_fft n_mels sample_rate hop_length
                 win_length f_min f_max data_parameters seed ds st,
            sep = default_split_char ->
            TextMelDataset_init zero one next_raw random_seed read_file path
              n_spks cleaners add_blank n_fft n_mels sample_rate hop_length
              win_length f_min f_max data_parameters seed = Ok (ds, st) ->
            len ds = length recs).
Proof.
  intros read_file path sep content Hread Hsep.
  pose proof (parse_filelist_records read_file path Hread Hsep) as Hparse.
  eexists. split; [exact Hparse |]. split; [apply length_map |]. split.
  - intros i line Hi. eexists. split; [| split].
    + rewrite nth_error_map, Hi. reflexivity.
    + destruct sep; [congruence | reflexivity].
    + intros E. rewrite E. reflexivity.
  - intros F rng zero one next_raw random_seed n_spks cleaners add_blank n_fft
      n_mels sample_rate hop_length win_length f_min f_max data_parameters seed
      ds st -> Hinit.
    destruct (TextMelDataset_init_len _ _ _ _ _ _ _ _ _ _ _ _ _ _ _ _ _ _ Hinit)
      as [recs [Hrecs Hlen]].
    rewrite Hparse in Hrecs. inversion Hrecs; subst. exact Hlen.
Qed.

Lemma parse_filelist_one_record_per_line_witness :
  exists recs ds st,
    parse_filelist fs_blank (u "filelist.txt") default_split_char = Ok recs
    /\ length recs = 3
    /\ dataset_init_demo fs_blank (u "filelist.txt") = Ok (ds, st)
    /\ len ds = 3.
Proof.
  destruct (@parse_filelist_one_record_per_line fs_blank (u "filelist.txt")
              default_split_char manifest_blank eq_refl)
    as [recs [H1 [H2 [_ H3]]]].
  - unfold default_split_char; simpl; discriminate.
  - destruct (dataset_init_demo fs_blank (u "filelist.txt")) as [[ds st] | e] eqn:E;
      [| vm_compute in E; discriminate E].
    exists recs, ds, st. split; [exact H1 |]. split; [exact H2 |].
    split; [reflexivity |].
    unfold dataset_init_demo in E.
    rewrite (H3 _ _ _ _ _ _ _ _ _ _ _ _ _ _ _ _ _ _ _ _ eq_refl E). exact H2.
Defined.

(** C7 (as stated) fails: a manifest of three lines whose second line is
    blank parses to three records, the second being the record with one empty
    field, although only two of its lines are non-empty. *)
Lemma parse_filelist_blank_line_counterexample :
  parse_filelist fs_blank (u "filelist.txt") default_split_char
  = Ok [[u "a.wav"; u "hello"]; [[]]; [u "b.wav"; u "world"]]
  /\ length (nonempty_lines manifest_blank) = 2
  /\ ~ (forall recs,
          parse_filelist fs_blank (u "filelist.txt") default_split_char = Ok recs ->
          length recs = length (nonempty_lines manifest_blank)).
Proof.
  split; [vm_compute; reflexivity |]. split; [vm_compute; reflexivity |].
  intros H. specialize (H _ eq_refl). vm_compute in H. discriminate H.
Qed.

(** ** fix_len_compatibility and intersperse *)

Lemma compatibility_factor_pos (k : nat) : 0 < compatibility_factor k.
Proof.
  unfold compatibility_factor.
  pose proof (Nat.pow_nonzero 2 k). lia.
Qed.

Lemma fix_len_compatibility_spec (k m : nat) :
  m <= fix_len_compatibility k m
  /\ fix_len_compatibility k m < m + compatibility_factor k
  /\ fix_len_compatibility k m mod compatibility_factor k = 0.
Proof.
  unfold fix_len_compatibility.
  pose proof (compatibility_factor_pos k) as Hpos.
  set (f := compatibility_factor k) in *.
  pose proof (Nat.div_mod_eq m f) as Hdm.
  pose proof (Nat.mod_upper_bound m f ltac:(lia)) as Hub.
  destruct (m mod f =? 0) eqn:E.
  - apply Nat.eqb_eq in E. repeat split; [lia | lia | exact E].
  - apply Nat.eqb_neq in E. repeat split.
    + nia.
    + nia.
    + apply Nat.Div0.mod_mul.
Qed.

Lemma intersperse_length {T : Type} (lst : list T) (item : T) :
  length (intersperse lst item) = 2 * length lst + 1.
Proof.
  induction lst as [| s lst IH]; simpl; [reflexivity |]. rewrite IH. lia.
Qed.

Lemma intersperse_even {T : Type} (lst : list T) (item : T) (k : nat) :
  k <= length lst -> nth_error (intersperse lst item) (2 * k) = Some item.
Proof.
  revert k. induction lst as [| s lst IH]; intros k Hk; simpl in Hk.
  - assert (k = 0) by lia. subst. reflexivity.
  - destruct k as [| k]; [reflexivity |].
    replace (2 * S k) with (S (S (2 * k))) by lia. simpl.
    apply IH. lia.
Qed.

Lemma intersperse_odd {T : Type} (lst : list T) (item : T) (k : nat) :
  nth_error (intersperse lst item) (2 * k + 1) = nth_error lst k.
Proof.
  revert k. induction lst as [| s lst IH]; intros k.
  - destruct k as [| k]; [reflexivity |].
    replace (2 * S k + 1) with (S (S (2 * k + 1))) by lia.
    simpl. destruct (2 * k + 1); reflexivity.
  - destruct k as [| k]; [reflexivity |].
    replace (2 * S k + 1) with (S (S (2 * k + 1))) by lia. simpl.
    apply IH.
Qed.

(** ** TextMelDataset *)

Section DatasetProperties.

Variable F : Type.
Variable rng : Type.
Variable next_raw : rng -> nat * rng.
Variable ta_load : str -> result (Tensor2 F * Z).
Variable mel_spectrogram :
  Tensor2 F -> Z -> Z -> Z -> Z -> Z -> F -> F -> bool -> result (Tensor2 F).
Variable normalize : Tensor2 F -> F -> F -> Tensor2 F.
Variable text_to_sequence : str -> list str -> result (list Z).
Variable py_int : str -> result Z.
Variable self : TextMelDataset F.

Local Notation "'get_mel_'" := (get_mel ta_load mel_spectrogram normalize self).
Local Notation "'get_text_'" := (get_text text_to_sequence self).
Local Notation "'get_datapoint_'" :=
  (get_datapoint ta_load mel_spectrogram normalize text_to_sequence py_int self).
Local Notation "'getitem_'" :=
  (getitem_dataset next_raw ta_load mel_spectrogram normalize text_to_sequence
     py_int self).

Lemma getitem_dataset_S (fuel : nat) (index : Z) (st : rng) :
  getitem_ (S fuel) index st
  = match (rec <- getitem_int (filepaths_and_text self) index ;;
           get_datapoint_ rec) with
    | Err e => Some (Err e, st)
    | Ok datapoint =>
        if last_dim2 (s_wav datapoint) <? min_wav_length then
          match randint next_raw 0 (Z.of_nat (len self) - 1) st with
          | (Ok j, st') => getitem_ fuel j st'
          | (Err e, st') => Some (Err e, st')
          end
        else Some (Ok datapoint, st)
    end.
Proof. reflexivity. Qed.

(** C5: when blank insertion is enabled and the cleaned encoding of a text
    has n symbols, [get_text] returns 2n+1 ids: the blank id 0 at every even
    position (so before the first symbol, between adjacent symbols and after
    the last) and the symbols, in order, at the odd positions. *)
Theorem get_text_blank_interleaved :
  forall (text : str) (add_blank_arg : bool) (symbols : list Z),
    text_to_sequence text (cleaners self) = Ok symbols ->
    add_blank self = true ->
    exists out,
      get_text_ text add_blank_arg = Ok out
      /\ length out = 2 * length symbols + 1
      /\ (forall k, k <= length symbols -> nth_error out (2 * k) = Some 0%Z)
      /\ (forall k, nth_error out (2 * k + 1) = nth_error symbols k).
Proof.
  intros text flag symbols Hseq Hblank.
  exists (intersperse symbols 0%Z). unfold get_text.
  rewrite Hseq, Hblank. simpl. split; [reflexivity |].
  split; [apply intersperse_length |].
  split; [intros k Hk; apply intersperse_even; exact Hk |].
  intros k. apply intersperse_odd.
Qed.

(** C8: for an audio file that loads, [get_mel] fails with the assertion
    error of the sample-rate check when the file's rate differs from the
    configured one, and an indexed access that reaches such a file returns
    that error without drawing a retry index; when the rates are equal
    [get_mel] returns the normalized mel with the audio as soon as the
    spectrogram is computed. *)
Theorem get_mel_sample_rate :
  forall (filepath : str) (audio : Tensor2 F) (sr : Z),
    ta_load filepath = Ok (audio, sr) ->
    (sr <> sample_rate self ->
       get_mel_ filepath = Err AssertionError
       /\ (forall fuel index st rec text symbols,
             (n_spks self <= 1)%Z ->
             getitem_int (filepaths_and_text self) index = Ok rec ->
             getitem rec 0 = Ok filepath ->
             getitem rec 1 = Ok text ->
             text_to_sequence text (cleaners self) = Ok symbols ->
             getitem_ (S fuel) index st = Some (Err AssertionError, st)))
    /\ (sr = sample_rate self ->
        forall mel,
          mel_spectrogram audio (n_fft self) (n_mels self) (sample_rate self)
            (hop_length self) (win_length self) (f_min self) (f_max self) false
          = Ok mel ->
          get_mel_ filepath
          = Ok (normalize mel (fst (data_parameters self))
                  (snd (data_parameters self)), audio)).
Proof.
  intros filepath audio sr Hload. split.
  - intros Hne.
    assert (Hmel : get_mel_ filepath = Err AssertionError).
    { unfold get_mel. rewrite Hload. simpl.
      destruct (Z.eqb_spec sr (sample_rate self)); [contradiction | reflexivity]. }
    split; [exact Hmel |].
    intros fuel index st rec text symbols Hspk Hrec H0 H1 Hseq.
    assert (Hdp : get_datapoint_ rec = Err AssertionError).
    { unfold get_datapoint.
      destruct (Z.ltb_spec 1 (n_spks self)) as [Hlt | _]; [lia |].
      rewrite H0. cbn [bind]. rewrite H1. cbn [bind].
      unfold get_text. rewrite Hseq. cbn [bind]. rewrite Hmel. reflexivity. }
    rewrite getitem_dataset_S, Hrec. cbn [bind]. rewrite Hdp. reflexivity.
  - intros Heq mel Hspec. unfold get_mel. rewrite Hload. simpl.
    rewrite Heq, Z.eqb_refl. rewrite <- Heq at 1.
    rewrite Heq. rewrite Hspec. reflexivity.
Qed.

Lemma getitem_int_nonempty {T : Type} (l : list T) (index : Z) (v : T) :
  getitem_int l index = Ok v -> 0 < length l.
Proof.
  unfold getitem_int, getitem. intros H.
  destruct l as [| a l]; simpl; [| lia]. simpl in H.
  destruct (Z.leb_spec 0 index), (Z.ltb_spec index 0); simpl in H;
    try discriminate H; lia.
Qed.

Lemma randint_index (n : nat) (st : rng) :
  0 < n ->
  exists j st', randint next_raw 0 (Z.of_nat n - 1) st = (Ok j, st')
                /\ (0 <= j < Z.of_nat n)%Z.
Proof.
  intros Hn. unfold randint, randbelow.
  replace (Z.of_nat n - 1 + 1 - 0)%Z with (Z.of_nat n) by lia.
  destruct (Z.ltb_spec 0 (Z.of_nat n)) as [_ | Hle]; [| lia].
  rewrite Nat2Z.id. destruct (next_raw st) as [r st'].
  eexists. eexists. split; [reflexivity |].
  pose proof (Nat.mod_upper_bound r n ltac:(lia)). lia.
Qed.

(** C3: a sample returned by an indexed access has at least 66150 audio
    samples; when the record at the requested index gives a shorter
    waveform, the sample is dropped and the access continues as the access
    at an index drawn from [0, dataset size); when it gives a waveform of at
    least 66150 samples, that sample is returned at once. *)
Theorem getitem_min_duration :
  (forall fuel index st datapoint st',
      getitem_ fuel index st = Some (Ok datapoint, st') ->
      66150 <= last_dim2 (s_wav datapoint))
  /\ (forall fuel index st rec datapoint,
        getitem_int (filepaths_and_text self) index = Ok rec ->
        get_datapoint_ rec = Ok datapoint ->
        last_dim2 (s_wav datapoint) < 66150 ->
        exists j st',
          randint next_raw 0 (Z.of_nat (len self) - 1) st = (Ok j, st')
          /\ (0 <= j < Z.of_nat (len self))%Z
          /\ getitem_ (S fuel) index st = getitem_ fuel j st')
  /\ (forall fuel index st rec datapoint,
        getitem_int (filepaths_and_text self) index = Ok rec ->
        get_datapoint_ rec = Ok datapoint ->
        66150 <= last_dim2 (s_wav datapoint) ->
        getitem_ (S fuel) index st = Some (Ok datapoint, st)).
Proof.
  split; [| split].
  - induction fuel as [| fuel IH]; intros index st dp st' H; [discriminate |].
    rewrite getitem_dataset_S in H.
    destruct (getitem_int (filepaths_and_text self) index) as [rec | e];
      [| discriminate].
    cbn [bind] in H. destruct (get_datapoint_ rec) as [dp0 | e]; [| discriminate].
    destruct (Nat.ltb_spec (last_dim2 (s_wav dp0)) min_wav_length) as [Hs | Hl].
    + destruct (randint next_raw 0 (Z.of_nat (len self) - 1) st) as [[j | e] st1];
        [| discriminate].
      eapply IH. exact H.
    + inversion H; subst. exact Hl.
  - intros fuel index st rec dp Hrec Hdp Hshort.
    destruct (randint_index st (getitem_int_nonempty _ _ Hrec))
      as [j [st' [Hr Hj]]].
    exists j, st'. split; [exact Hr |]. split; [exact Hj |].
    rewrite getitem_dataset_S, Hrec. cbn [bind]. rewrite Hdp.
    destruct (Nat.ltb_spec (last_dim2 (s_wav dp)) min_wav_length) as [_ | Hl];
      [| exfalso; apply (Nat.lt_irrefl _ (Nat.lt_le_trans _ _ _ Hshort Hl))].
    unfold len. rewrite Hr. reflexivity.
  - intros fuel index st rec dp Hrec Hdp Hlong.
    rewrite getitem_dataset_S, Hrec. cbn [bind]. rewrite Hdp.
    destruct (Nat.ltb_spec (last_dim2 (s_wav dp)) min_wav_length) as [Hs | _];
      [exfalso; apply (Nat.lt_irrefl _ (Nat.lt_le_trans _ _ _ Hs Hlong))
      | reflexivity].
Qed.

End DatasetProperties.

(** ** Tensor writes *)

Lemma expand_same {T : Type} (n : nat) (l : list T) :
  length l = n -> expand n l = l.
Proof. intros H. unfold expand. rewrite H, Nat.eqb_refl. reflexivity. Qed.

Lemma map_expand_same {T : Type} (c : nat) (rows : list (list T)) :
  forallb (fun r => length r =? c) rows = true -> map (expand c) rows = rows.
Proof.
  induction rows as [| r rows IH]; simpl; intros H; [reflexivity |].
  apply andb_prop in H. destruct H as [Hr Hrows].
  apply Nat.eqb_eq in Hr. rewrite (expand_same r Hr), (IH Hrows). reflexivity.
Qed.

Lemma skipn_repeat {T : Type} (v : T) (c w : nat) :
  skipn c (repeat v w) = repeat v (w - c).
Proof.
  revert w. induction c as [| c IH]; intros w; simpl.
  - rewrite Nat.sub_0_r. reflexivity.
  - destruct w as [| w]; simpl; [reflexivity | apply IH].
Qed.

Lemma paste_rows_repeat {T : Type} (z : list T) (n : nat) (rows : list (list T)) :
  length rows = n -> paste_rows (repeat z n) rows = map (overwrite z) rows.
Proof.
  revert n. unfold paste_rows.
  induction rows as [| r rows IH]; intros n H; simpl in H; subst n; simpl;
    [reflexivity |].
  f_equal. apply IH. reflexivity.
Qed.

(** Writing well-shaped rows of width [c] into a zero block of width [w]. *)
Lemma paste_rows_zero {T : Type} (zero : T) (n w c : nat) (rows : list (list T)) :
  well_shaped_rows n c rows = true ->
  paste_rows (repeat (repeat zero w) n) (expand n (map (expand c) rows))
  = map (fun r => r ++ repeat zero (w - c)) rows.
Proof.
  unfold well_shaped_rows. intros H. apply andb_prop in H. destruct H as [Hn Hc].
  apply Nat.eqb_eq in Hn.
  rewrite (map_expand_same _ _ Hc), (expand_same _ Hn), (paste_rows_repeat _ _ Hn).
  apply map_ext_in. intros r Hr. unfold overwrite. rewrite skipn_repeat.
  rewrite forallb_forall in Hc. specialize (Hc r Hr). apply Nat.eqb_eq in Hc.
  rewrite Hc. reflexivity.
Qed.

Lemma cols_to_padded {T : Type} (zero : T) (c pad : nat) (rows : list (list T)) :
  forallb (fun r => length r =? c) rows = true ->
  cols_to (map (fun r => r ++ repeat zero pad) rows) c = rows.
Proof.
  unfold cols_to. intros H. rewrite map_map.
  rewrite <- (map_id rows) at 2. apply map_ext_in. intros r Hr.
  rewrite forallb_forall in H. specialize (H r Hr). apply Nat.eqb_eq in H.
  rewrite firstn_app, H, Nat.sub_diag. simpl. rewrite app_nil_r.
  rewrite <- H. apply firstn_all.
Qed.

Lemma cols_from_padded {T : Type} (zero : T) (c pad : nat) (rows : list (list T)) :
  forallb (fun r => length r =? c) rows = true ->
  all_equal_to zero (cols_from (map (fun r => r ++ repeat zero pad) rows) c).
Proof.
  unfold cols_from, all_equal_to. intros H. rewrite map_map.
  apply Forall_forall. intros r' Hin. apply in_map_iff in Hin.
  destruct Hin as [r [Er Hr]]. subst r'.
  rewrite forallb_forall in H. specialize (H r Hr). apply Nat.eqb_eq in H.
  rewrite skipn_app, H, Nat.sub_diag. simpl.
  rewrite <- H, skipn_all. simpl.
  apply Forall_forall. intros v Hv. apply repeat_spec in Hv. congruence.
Qed.

Lemma setitem3_inv {T : Type} (t t' : Tensor3 T) (i stop : nat) (src : Tensor2 T) :
  setitem3 t i stop src = Ok t' ->
  exists block,
    nth_error (data3 t) i = Some block
    /\ broadcasts (rows_dim2 src) (snd (fst (shape3 t))) = true
    /\ broadcasts (last_dim2 src) (Nat.min stop (snd (shape3 t))) = true
    /\ shape3 t' = shape3 t
    /\ data3 t' = set_nth (data3 t) i
         (paste_rows block
            (expand (snd (fst (shape3 t)))
               (map (expand (Nat.min stop (snd (shape3 t)))) (data2 src)))).
Proof.
  unfold setitem3, getitem. intros H.
  destruct (nth_error (data3 t) i) as [block |] eqn:Hb; [| discriminate].
  simpl in H. destruct (shape3 t) as [[b n] w] eqn:Hs. simpl.
  destruct (broadcasts (rows_dim2 src) n) eqn:B1; [| discriminate].
  destruct (broadcasts (last_dim2 src) (Nat.min stop w)) eqn:B2; [| discriminate].
  simpl in H. inversion H; subst; simpl. exists block. auto.
Qed.

Lemma slice_cols_well_shaped {T : Type} (t : Tensor2 T) (stop : nat) :
  well_shaped2 t = true -> well_shaped2 (slice_cols t stop) = true.
Proof.
  unfold well_shaped2, well_shaped_rows, slice_cols, rows_dim2, last_dim2. simpl.
  intros H. apply andb_prop in H. destruct H as [Hn Hc].
  rewrite length_map, Hn. simpl.
  rewrite forallb_forall in *. intros r' Hin. apply in_map_iff in Hin.
  destruct Hin as [r [Er Hr]]. subst r'. specialize (Hc r Hr).
  apply Nat.eqb_eq in Hc. apply Nat.eqb_eq. rewrite length_firstn, Hc. reflexivity.
Qed.

(** ** TextMelBatchCollate *)

Section CollateProperties.

Variable F : Type.
Variable zero : F.
Variable num_downsamplings : nat.
Variable C : Type.
Variable encodec : bool -> Tensor3 F -> result C.
Variable squeeze_transpose : C -> result C.

Local Notation "'collate_'" :=
  (collate_call zero num_downsamplings encodec squeeze_transpose).

Lemma collate_step_inv (wml : nat) (a a' : Filled F) (i : nat) (item : Sample F) :
  collate_step wml a i item = Ok a' ->
  setitem3 (f_y a) i (last_dim2 (s_y item)) (s_y item) = Ok (f_y a')
  /\ setitem3 (f_wav a) i (last_dim2 (truncated_wav wml item))
       (truncated_wav wml item) = Ok (f_wav a')
  /\ f_y_lengths a' = f_y_lengths a ++ [last_dim2 (s_y item)]
  /\ f_wav_lengths a' = f_wav_lengths a ++ [last_dim2 (truncated_wav wml item)]
  /\ f_spks a' = f_spks a ++ [s_spk item].
Proof.
  unfold collate_step. intros H.
  bind_inv H. bind_inv H. bind_inv H. inversion H; subst; simpl.
  repeat split; assumption.
Qed.

(** What one field of the loop state holds after the loop: a field that
    each iteration [i] updates by [field[i, :, :src.shape[-1]] = src]. *)
Section LoopField.

Variable wml : nat.
Variable proj : Filled F -> Tensor3 F.
Variable src : Sample F -> Tensor2 F.
Hypothesis step_proj :
  forall a i item a',
    collate_step wml a i item = Ok a' ->
    setitem3 (proj a) i (last_dim2 (src item)) (src item) = Ok (proj a').

Lemma loop_field (batch : list (Sample F)) :
  forall a i a',
    collate_loop wml a i batch = Ok a' ->
    shape3 (proj a') = shape3 (proj a)
    /\ (forall k, k < i ->
          nth_error (data3 (proj a')) k = nth_error (data3 (proj a)) k)
    /\ (forall j item, nth_error batch j = Some item ->
          exists block,
            nth_error (data3 (proj a)) (i + j) = Some block
            /\ broadcasts (rows_dim2 (src item)) (snd (fst (shape3 (proj a)))) = true
            /\ nth_error (data3 (proj a')) (i + j)
               = Some (pasted (shape3 (proj a)) block (src item))).
Proof.
  induction batch as [| item0 rest IH]; intros a i a' H; simpl in H.
  - inversion H; subst. split; [reflexivity |]. split; [reflexivity |].
    intros j item Hj. destruct j; discriminate Hj.
  - bind_inv H. rename v into a1.
    apply step_proj in E. apply setitem3_inv in E.
    destruct E as [block [Hb [B1 [_ [Hs Hd]]]]].
    destruct (IH _ _ _ H) as [IHs [IHk IHj]].
    assert (Hi : i < length (data3 (proj a))).
    { apply nth_error_Some. congruence. }
    split; [congruence |]. split.
    + intros k Hk. rewrite IHk by lia. rewrite Hd.
      apply set_nth_other. lia.
    + intros j item Hj. destruct j as [| j]; simpl in Hj.
      * inversion Hj; subst item0. exists block.
        rewrite Nat.add_0_r. split; [exact Hb |]. split; [exact B1 |].
        rewrite IHk by lia. rewrite Hd. apply set_nth_same. exact Hi.
      * destruct (IHj j item Hj) as [block' [Hb' [B1' Hp']]].
        replace (i + S j) with (S i + j) by lia.
        exists block'. rewrite Hs in *. split; [| split; assumption].
        rewrite <- Hb', Hd. symmetry. apply set_nth_other. lia.
Qed.

End LoopField.

Lemma loop_lists (wml : nat) (batch : list (Sample F)) :
  forall a i a',
    collate_loop wml a i batch = Ok a' ->
    f_y_lengths a' = f_y_lengths a ++ map (fun it => last_dim2 (s_y it)) batch
    /\ f_wav_lengths a'
       = f_wav_lengths a ++ map (fun it => last_dim2 (truncated_wav wml it)) batch
    /\ f_spks a' = f_spks a ++ map (@s_spk F) batch.
Proof.
  induction batch as [| item rest IH]; intros a i a' H; simpl in H.
  - inversion H; subst. rewrite !app_nil_r. auto.
  - bind_inv H. apply collate_step_inv in E.
    destruct E as [_ [_ [Ey [Ew Es]]]].
    destruct (IH _ _ _ H) as [Hy [Hw Hs]].
    rewrite Hy, Hw, Hs, Ey, Ew, Es. simpl. rewrite <- !app_assoc. auto.
Qed.

(** The sizes [collate_fill] computes and the loop it then runs. *)
Lemma collate_fill_inv (batch : list (Sample F)) (a : Filled F) :
  collate_fill zero num_downsamplings batch = Ok a ->
  exists m mx first,
    py_max (map (fun item => last_dim2 (s_y item)) batch) = Ok m
    /\ nth_error batch 0 = Some first
    /\ collate_loop (fix_len_compatibility num_downsamplings m * 256)
         {| f_y := zeros3 zero (length batch) (rows_dim2 (s_y first))
                     (fix_len_compatibility num_downsamplings m);
            f_x := zeros2 0%Z (length batch) mx;
            f_wav := zeros3 zero (length batch) 1
                       (fix_len_compatibility num_downsamplings m * 256);
            f_y_lengths := []; f_x_lengths := []; f_wav_lengths := [];
            f_spks := [] |} 0 batch = Ok a.
Proof.
  unfold collate_fill. intros H.
  bind_inv H. bind_inv H. bind_inv H.
  exists v, v0, v1. split; [assumption |]. split; [| assumption].
  unfold getitem in E1. destruct (nth_error batch 0); [| discriminate].
  inversion E1. reflexivity.
Qed.

(** A returned batch comes from a filled state, with codes enabled. *)
Lemma collate_call_inv (self self' : TextMelBatchCollate)
    (batch : list (Sample F)) (b : Batch F C) :
  collate_ self batch = (Ok b, self') ->
  exists a,
    collate_fill zero num_downsamplings batch = Ok a
    /\ get_codes self = true
    /\ b_y b = f_y a /\ b_wav b = f_wav a
    /\ b_y_lengths b = f_y_lengths a
    /\ b_wav_lengths b = f_wav_lengths a
    /\ b_codes_lengths b
       = Some (map (fun wav_len => 1 + wav_len / 320) (f_wav_lengths a))
    /\ b_prompt_codes_lengths b = b_codes_lengths b
    /\ b_prompt_codes b = b_codes b
    /\ (b_spks b <> None <-> (1 < c_n_spks self)%Z).
Proof.
  unfold collate_call. intros H.
  destruct (collate_fill zero num_downsamplings batch) as [a | e];
    [| inversion H].
  exists a. split; [reflexivity |].
  unfold collate_finish, batched_encodec in H.
  destruct (get_codes self) eqn:G.
  - simpl in H.
    destruct (encodec false (f_wav a)) as [c | e]; simpl in H; [| inversion H].
    destruct (squeeze_transpose c) as [c' | e]; simpl in H; [| inversion H].
    destruct (Z.ltb_spec 1 (c_n_spks self)) as [Hs | Hs].
    + destruct (tensor_long (f_spks a)) as [v | e]; simpl in H; [| inversion H].
      inversion H; subst; simpl. repeat split; try reflexivity;
        [intros; assumption | discriminate].
    + simpl in H. inversion H; subst; simpl. repeat split; try reflexivity;
        [intros; congruence | intros; lia].
  - simpl in H.
    destruct (Z.ltb_spec 1 (c_n_spks self)) as [Hs | Hs].
    + destruct (tensor_long (f_spks a)) as [v | e]; simpl in H; inversion H.
    + simpl in H. inversion H.
Qed.

(** The filled state in full: the shapes, the recorded lengths and, for
    every item, the rows written at its index over the zero rows. *)
Lemma collate_fill_spec (batch : list (Sample F)) (a : Filled F) :
  collate_fill zero num_downsamplings batch = Ok a ->
  exists m first,
    let Ty := fix_len_compatibility num_downsamplings m in
    let n_feats := rows_dim2 (s_y first) in
    py_max (map (fun item => last_dim2 (s_y item)) batch) = Ok m
    /\ nth_error batch 0 = Some first
    /\ shape3 (f_y a) = (length batch, n_feats, Ty)
    /\ shape3 (f_wav a) = (length batch, 1, Ty * 256)
    /\ f_y_lengths a = map (fun it => last_dim2 (s_y it)) batch
    /\ f_wav_lengths a
       = map (fun it => last_dim2 (truncated_wav (Ty * 256) it)) batch
    /\ (forall i item, nth_error batch i = Some item ->
          broadcasts (rows_dim2 (s_y item)) n_feats = true
          /\ nth_error (data3 (f_y a)) i
             = Some (pasted (length batch, n_feats, Ty)
                       (repeat (repeat zero Ty) n_feats) (s_y item))
          /\ broadcasts (rows_dim2 (truncated_wav (Ty * 256) item)) 1 = true
          /\ nth_error (data3 (f_wav a)) i
             = Some (pasted (length batch, 1, Ty * 256)
                       (repeat (repeat zero (Ty * 256)) 1)
                       (truncated_wav (Ty * 256) item))).
Proof.
  intros H. apply collate_fill_inv in H.
  destruct H as [m [mx [first [Hm [Hfirst Hloop]]]]].
  exists m, first. cbv zeta.
  set (Ty := fix_len_compatibility num_downsamplings m) in *.
  split; [exact Hm |]. split; [exact Hfirst |].
  destruct (@loop_field (Ty * 256) (@f_y F) (@s_y F)
              (fun a i item a' E => proj1 (collate_step_inv _ _ _ _ E))
              batch _ _ _ Hloop) as [Hsy [_ Hjy]].
  destruct (@loop_field (Ty * 256) (@f_wav F) (truncated_wav (Ty * 256))
              (fun a i item a' E => proj1 (proj2 (collate_step_inv _ _ _ _ E)))
              batch _ _ _ Hloop) as [Hsw [_ Hjw]].
  destruct (loop_lists _ _ _ _ Hloop) as [Hly [Hlw _]].
  simpl in *. repeat split; try assumption.
  - destruct (Hjy i item H) as [block [_ [B1 _]]]. exact B1.
  - destruct (Hjy i item H) as [block [Hb [_ Hp]]].
    apply nth_error_In, repeat_spec in Hb. subst block. exact Hp.
  - destruct (Hjw i item H) as [block [_ [B1 _]]]. exact B1.
  - destruct (Hjw i item H) as [block [Hb [_ Hp]]].
    apply nth_error_In, repeat_spec in Hb. subst block. exact Hp.
Qed.

Lemma mel_length_le_max (batch : list (Sample F)) (m i : nat) (item : Sample F) :
  py_max (map (fun it => last_dim2 (s_y it)) batch) = Ok m ->
  nth_error batch i = Some item ->
  last_dim2 (s_y item) <= fix_len_compatibility num_downsamplings m.
Proof.
  intros Hm Hi. apply py_max_spec in Hm. destruct Hm as [Hall _].
  rewrite Forall_forall in Hall.
  assert (last_dim2 (s_y item) <= m).
  { apply Hall. apply in_map_iff. exists item. split; [reflexivity |].
    eapply nth_error_In; eassumption. }
  pose proof (fix_len_compatibility_spec num_downsamplings m). lia.
Qed.

Lemma truncated_wav_last_dim (wml : nat) (item : Sample F) :
  last_dim2 (truncated_wav wml item) = Nat.min (last_dim2 (s_wav item)) wml.
Proof.
  unfold truncated_wav, slice_cols, last_dim2.
  destruct (Nat.ltb_spec wml (snd (shape2 (s_wav item)))); simpl; lia.
Qed.

(** C1 (as amended): in every batch the collator returns, the last
    dimension of the mel tensor is the largest mel length of the batch
    rounded up by [fix_len_compatibility] (the least multiple of the
    compatibility factor that is not below it), and the last dimension of the
    waveform tensor is that number times 256, the constant of the collator;
    this is the mel length times the hop length when the hop length is 256. *)
Theorem collate_padded_lengths :
  forall (self self' : TextMelBatchCollate) (batch : list (Sample F))
         (b : Batch F C),
    collate_ self batch = (Ok b, self') ->
    exists m,
      py_max (map (fun item => last_dim2 (s_y item)) batch) = Ok m
      /\ last_dim3 (b_y b) = fix_len_compatibility num_downsamplings m
      /\ m <= last_dim3 (b_y b) < m + compatibility_factor num_downsamplings
      /\ last_dim3 (b_y b) mod compatibility_factor num_downsamplings = 0
      /\ last_dim3 (b_wav b) = last_dim3 (b_y b) * 256
      /\ (forall hparams : HParams,
            hp_hop_length hparams = 256%Z ->
            Z.of_nat (last_dim3 (b_wav b))
            = (Z.of_nat (last_dim3 (b_y b)) * hp_hop_length hparams)%Z).
Proof.
  intros self self' batch b H.
  apply collate_call_inv in H.
  destruct H as [a [Hfill [_ [Hy [Hw _]]]]].
  apply collate_fill_spec in Hfill.
  destruct Hfill as [m [first [Hm [_ [Hsy [Hsw _]]]]]].
  exists m. unfold last_dim3. rewrite Hy, Hw, Hsy, Hsw. simpl.
  pose proof (fix_len_compatibility_spec num_downsamplings m) as [H1 [H2 H3]].
  repeat split; try assumption.
  intros hparams Hhop. rewrite Hhop. lia.
Qed.

(** C2: in a batch of samples whose mels all have the same number of rows,
    for every item i the recorded mel length is the item's mel time
    dimension, the collated mel restricted to that length is the item's mel,
    and every entry beyond it is zero. *)
Theorem collate_mel_copied_and_padded :
  forall (self self' : TextMelBatchCollate) (batch : list (Sample F))
         (b : Batch F C) (n_mels : nat),
    Forall (fun item => mel_ok n_mels item = true) batch ->
    collate_ self batch = (Ok b, self') ->
    forall i item,
      nth_error batch i = Some item ->
      nth_error (b_y_lengths b) i = Some (last_dim2 (s_y item))
      /\ exists rows,
           nth_error (data3 (b_y b)) i = Some rows
           /\ cols_to rows (last_dim2 (s_y item)) = data2 (s_y item)
           /\ all_equal_to zero (cols_from rows (last_dim2 (s_y item))).
Proof.
  intros self self' batch b n_mels Hok H i item Hi.
  apply collate_call_inv in H.
  destruct H as [a [Hfill [_ [Hy [_ [Hly _]]]]]].
  apply collate_fill_spec in Hfill.
  destruct Hfill as [m [first [Hm [Hfirst [_ [_ [Hlen [_ Hitems]]]]]]]].
  rewrite Hy, Hly, Hlen. split.
  - rewrite nth_error_map, Hi. reflexivity.
  - destruct (Hitems i item Hi) as [_ [Hrows _]].
    rewrite Forall_forall in Hok.
    pose proof (Hok item (nth_error_In _ _ Hi)) as Hitem.
    pose proof (Hok first (nth_error_In _ _ Hfirst)) as Hf.
    unfold mel_ok in Hitem, Hf.
    apply andb_prop in Hitem. destruct Hitem as [Hws Hn].
    apply andb_prop in Hf. destruct Hf as [_ Hnf].
    apply Nat.eqb_eq in Hn. apply Nat.eqb_eq in Hnf.
    pose proof (@mel_length_le_max _ _ _ _ Hm Hi) as Hle.
    unfold pasted in Hrows. simpl in Hrows.
    rewrite Nat.min_l in Hrows by exact Hle.
    unfold well_shaped2 in Hws. rewrite Hnf, <- Hn in Hrows.
    unfold rows_dim2, last_dim2 in *.
    rewrite (@paste_rows_zero _ zero _ _ _ _ Hws) in Hrows.
    eexists. split; [exact Hrows |].
    unfold well_shaped_rows in Hws. apply andb_prop in Hws.
    destruct Hws as [_ Hc].
    split; [apply cols_to_padded | apply cols_from_padded]; exact Hc.
Qed.

(** C4: for an item whose (well-shaped) waveform is longer than the padded
    waveform length Tw_max, its row of the waveform tensor is exactly the
    first Tw_max samples; for an item whose waveform is not longer, the row
    is the waveform followed by zeros. *)
Theorem collate_wav_truncated_or_padded :
  forall (self self' : TextMelBatchCollate) (batch : list (Sample F))
         (b : Batch F C),
    collate_ self batch = (Ok b, self') ->
    forall i item,
      nth_error batch i = Some item ->
      well_shaped2 (s_wav item) = true ->
      let Tw_max := last_dim3 (b_wav b) in
      let L := last_dim2 (s_wav item) in
      exists samples,
        data2 (s_wav item) = [samples]
        /\ length samples = L
        /\ (Tw_max < L ->
            nth_error (data3 (b_wav b)) i = Some [firstn Tw_max samples])
        /\ (L <= Tw_max ->
            nth_error (data3 (b_wav b)) i
            = Some [samples ++ repeat zero (Tw_max - L)]).
Proof.
  intros self self' batch b H i item Hi Hws. cbv zeta.
  apply collate_call_inv in H.
  destruct H as [a [Hfill [_ [_ [Hw _]]]]].
  apply collate_fill_spec in Hfill.
  destruct Hfill as [m [first [_ [_ [_ [Hsw [_ [_ Hitems]]]]]]]].
  destruct (Hitems i item Hi) as [_ [_ [Hb Hrows]]].
  set (Tw := fix_len_compatibility num_downsamplings m * 256) in *.
  unfold last_dim3. rewrite Hw, Hsw. simpl.
  assert (Hch : fst (shape2 (s_wav item)) = 1).
  { unfold truncated_wav, slice_cols, rows_dim2 in Hb.
    destruct (Tw <? last_dim2 (s_wav item)); simpl in Hb;
      unfold broadcasts in Hb; apply orb_prop in Hb;
      destruct Hb as [Hb | Hb]; apply Nat.eqb_eq in Hb; exact Hb. }
  pose proof Hws as Hws0.
  unfold well_shaped2, well_shaped_rows in Hws0. rewrite Hch in Hws0.
  apply andb_prop in Hws0. destruct Hws0 as [Hlen Hcols].
  destruct (data2 (s_wav item)) as [| samples [| r rest]] eqn:Hd;
    try discriminate Hlen.
  simpl in Hcols. rewrite andb_true_r in Hcols. apply Nat.eqb_eq in Hcols.
  exists samples. split; [reflexivity |]. split; [exact Hcols |].
  assert (Hwst : well_shaped2 (truncated_wav Tw item) = true).
  { unfold truncated_wav. destruct (Tw <? last_dim2 (s_wav item));
      [apply slice_cols_well_shaped |]; exact Hws. }
  assert (Hcht : fst (shape2 (truncated_wav Tw item)) = 1).
  { unfold truncated_wav, slice_cols, rows_dim2.
    destruct (Tw <? last_dim2 (s_wav item)); simpl; exact Hch. }
  unfold well_shaped2 in Hwst. rewrite Hcht in Hwst.
  unfold pasted in Hrows. cbn [fst snd] in Hrows.
  pose proof (truncated_wav_last_dim Tw item) as Hld.
  rewrite Nat.min_l in Hrows by (rewrite Hld; lia).
  unfold last_dim2 in Hrows at 1.
  rewrite (@paste_rows_zero _ zero _ _ _ _ Hwst) in Hrows.
  rewrite Hrows. unfold truncated_wav, slice_cols.
  split; intros Hcmp.
  - destruct (Nat.ltb_spec Tw (last_dim2 (s_wav item))) as [_ | Hge]; [| lia].
    simpl. rewrite Hd. simpl. unfold last_dim2 in *.
    replace (Tw - Nat.min Tw (snd (shape2 (s_wav item)))) with 0 by lia.
    simpl. rewrite app_nil_r. reflexivity.
  - destruct (Nat.ltb_spec Tw (last_dim2 (s_wav item))) as [Hlt | _]; [lia |].
    rewrite Hd. simpl. reflexivity.
Qed.

(** C10: for every item i of a returned batch, the recorded waveform length
    is the length after truncation, the smaller of the item's waveform
    length and Ty_max * 256; it does not exceed the last dimension of the
    waveform tensor; and the recorded code length is 1 + that truncated
    length // 320. *)
Theorem collate_wav_lengths_truncated :
  forall (self self' : TextMelBatchCollate) (batch : list (Sample F))
         (b : Batch F C),
    collate_ self batch = (Ok b, self') ->
    forall i item,
      nth_error batch i = Some item ->
      exists wav_len codes_lengths,
        nth_error (b_wav_lengths b) i = Some wav_len
        /\ wav_len = Nat.min (last_dim2 (s_wav item)) (last_dim3 (b_y b) * 256)
        /\ wav_len <= last_dim3 (b_wav b)
        /\ get_codes self = true
        /\ b_codes_lengths b = Some codes_lengths
        /\ nth_error codes_lengths i = Some (1 + wav_len / 320).
Proof.
  intros self self' batch b H i item Hi.
  apply collate_call_inv in H.
  destruct H as [a [Hfill [Hg [Hy [Hw [_ [Hlw [Hcl _]]]]]]]].
  apply collate_fill_spec in Hfill.
  destruct Hfill as [m [first [_ [_ [Hsy [Hsw [_ [Hlen _]]]]]]]].
  unfold last_dim3. rewrite Hy, Hw, Hsy, Hsw, Hlw, Hcl, Hlen. simpl.
  eexists. eexists. split; [rewrite nth_error_map, Hi; reflexivity |].
  split; [apply truncated_wav_last_dim |].
  split; [rewrite truncated_wav_last_dim; lia |].
  split; [exact Hg |]. split; [reflexivity |].
  rewrite !nth_error_map, Hi. reflexivity.
Qed.

Lemma collate_finish_state (self : TextMelBatchCollate) (a : Filled F) :
  fst (collate_finish encodec squeeze_transpose
         (snd (collate_finish encodec squeeze_transpose self a)) a)
  = fst (collate_finish encodec squeeze_transpose self a).
Proof.
  destruct self as [n g t]. unfold collate_finish, batched_encodec. simpl.
  destruct g; simpl; reflexivity.
Qed.

(** C9: calling the collator twice on the same list of samples, the second
    call on the collator as the first call leaves it, gives the same result:
    the same batch, field by field, or the same error. *)
Theorem collate_twice_same :
  forall (self : TextMelBatchCollate) (batch : list (Sample F)),
    fst (collate_ (snd (collate_ self batch)) batch)
    = fst (collate_ self batch).
Proof.
  intros self batch. unfold collate_call.
  destruct (collate_fill zero num_downsamplings batch) as [a | e] eqn:E;
    simpl.
  - apply collate_finish_state.
  - reflexivity.
Qed.

(** Without code extraction the collator returns no batch: the local
    [codes] is read at the return although nothing was assigned to it. *)
Lemma collate_without_codes (self : TextMelBatchCollate)
    (batch : list (Sample F)) :
  get_codes self = false ->
  is_ok (fst (collate_ self batch)) = false
  /\ (forall a, collate_fill zero num_downsamplings batch = Ok a ->
                (c_n_spks self <= 1)%Z ->
                collate_ self batch = (Err UnboundLocalError, self)).
Proof.
  intros G. unfold collate_call, collate_finish.
  destruct (collate_fill zero num_downsamplings batch) as [a | e];
    [| split; [reflexivity | discriminate]].
  rewrite G. simpl. split.
  - destruct (1 <? c_n_spks self)%Z; simpl; [| reflexivity].
    destruct (tensor_long (f_spks a)); reflexivity.
  - intros a' _ Hs. destruct (Z.ltb_spec 1 (c_n_spks self)); [lia |].
    reflexivity.
Qed.

End CollateProperties.

(** ** The collator returns a batch *)

Section CollateReturns.

Variable F : Type.
Variable zero : F.
Variable num_downsamplings : nat.
Variable C : Type.
Variable encodec : bool -> Tensor3 F -> result C.
Variable squeeze_transpose : C -> result C.

Lemma setitem3_returns (t : Tensor3 F) (i : nat) (src : Tensor2 F) (b n w : nat) :
  i < length (data3 t) ->
  shape3 t = (b, n, w) ->
  rows_dim2 src = n ->
  last_dim2 src <= w ->
  exists t',
    setitem3 t i (last_dim2 src) src = Ok t'
    /\ shape3 t' = shape3 t
    /\ length (data3 t') = length (data3 t).
Proof.
  intros Hi Hs Hn Hw. unfold setitem3, getitem.
  destruct (nth_error (data3 t) i) as [block |] eqn:Hb.
  - cbn [bind]. rewrite Hs. unfold broadcasts.
    rewrite Hn, Nat.eqb_refl, Nat.min_l, Nat.eqb_refl by exact Hw.
    cbn [orb andb]. eexists. split; [reflexivity |]. cbn [shape3 data3].
    split; [first [reflexivity | exact Hs | congruence] | apply set_nth_length].
  - apply nth_error_None in Hb. lia.
Qed.

Lemma setitem2_returns (t : Tensor2 Z) (i : nat) (src : list Z) :
  i < length (data2 t) ->
  length src <= last_dim2 t ->
  exists t',
    setitem2 t i (length src) src = Ok t'
    /\ shape2 t' = shape2 t
    /\ length (data2 t') = length (data2 t).
Proof.
  intros Hi Hw. unfold setitem2, getitem.
  destruct (nth_error (data2 t) i) as [row |] eqn:Hb.
  - cbn [bind]. unfold broadcasts.
    rewrite Nat.min_l, Nat.eqb_refl by exact Hw.
    cbn [orb]. eexists. split; [reflexivity |]. cbn [shape2 data2].
    split; [reflexivity | apply set_nth_length].
  - apply nth_error_None in Hb. lia.
Qed.

Lemma collate_loop_returns (n Ty Tx wml : nat) (batch : list (Sample F)) :
  Forall (fits n Ty Tx) batch ->
  forall (a : Filled F) (i : nat),
    i + length batch <= length (data3 (f_y a)) ->
    i + length batch <= length (data2 (f_x a)) ->
    i + length batch <= length (data3 (f_wav a)) ->
    snd (fst (shape3 (f_y a))) = n -> snd (shape3 (f_y a)) = Ty ->
    last_dim2 (f_x a) = Tx ->
    snd (fst (shape3 (f_wav a))) = 1 -> snd (shape3 (f_wav a)) = wml ->
    exists a', collate_loop wml a i batch = Ok a'.
Proof.
  induction 1 as [| item rest Hitem _ IH]; intros a i Hy Hx Hw Sn ST Sx Sc Sw.
  - exists a. reflexivity.
  - destruct Hitem as [Hn [HT [Hlx Hch]]]. simpl in Hy, Hx, Hw.
    destruct (shape3 (f_y a)) as [[by0 ny] wy] eqn:Esy.
    destruct (shape3 (f_wav a)) as [[bw nw] ww] eqn:Esw.
    cbn [fst snd] in Sn, ST, Sc, Sw. subst ny wy nw ww.
    destruct (@setitem3_returns (f_y a) i (s_y item) by0 n Ty)
      as [y' [Ey [Hys Hyl]]]; [lia | exact Esy | exact Hn | exact HT |].
    destruct (@setitem2_returns (f_x a) i (s_x item))
      as [x' [Ex [Hxs Hxl]]]; [lia | lia |].
    destruct (@setitem3_returns (f_wav a) i (truncated_wav wml item) bw 1 wml)
      as [w' [Ew [Hwsh Hwl]]];
      [lia | exact Esw
       | unfold truncated_wav, slice_cols, rows_dim2 in *;
         destruct (wml <? last_dim2 (s_wav item)); exact Hch
       | rewrite truncated_wav_last_dim; lia |].
    cbn [collate_loop]. unfold collate_step.
    rewrite Ey. cbn [bind]. rewrite Ex. cbn [bind]. rewrite Ew. cbn [bind].
    apply IH; cbn [f_y f_x f_wav];
      rewrite ?Hyl, ?Hxl, ?Hwl, ?Hys, ?Hwsh, ?Esy, ?Esw; try lia;
      try reflexivity.
    unfold last_dim2 in *. rewrite Hxs. exact Sx.
Qed.

(** A non-empty batch of samples built for one dataset is collated into a
    batch as soon as the codec answers and, with several speakers, the
    speaker ids convert. *)
Lemma collate_call_returns (self : TextMelBatchCollate)
    (batch : list (Sample F)) (n_mels : nat) :
  batch <> [] ->
  Forall (fun item => sample_ok n_mels item = true) batch ->
  get_codes self = true ->
  (forall wav, exists c c', encodec false wav = Ok c /\ squeeze_transpose c = Ok c') ->
  ((c_n_spks self <= 1)%Z \/ exists v, tensor_long (map (@s_spk F) batch) = Ok v) ->
  exists b self',
    collate_call zero num_downsamplings encodec squeeze_transpose self batch
    = (Ok b, self').
Proof.
  intros Hne Hok Hg Hcodec Hspk.
  destruct batch as [| first rest] eqn:Eb; [congruence |]. rewrite <- Eb in *.
  destruct (@py_max_total (map (fun item => last_dim2 (s_y item)) batch))
    as [m Hm]; [rewrite Eb; discriminate |].
  destruct (@py_max_total (map (fun item => length (s_x item)) batch))
    as [mx Hmx]; [rewrite Eb; discriminate |].
  pose proof (py_max_spec _ Hm) as [Hall _].
  pose proof (py_max_spec _ Hmx) as [Hallx _].
  pose proof (fix_len_compatibility_spec num_downsamplings m) as [Hge _].
  set (Ty := fix_len_compatibility num_downsamplings m) in *.
  assert (Hfits : Forall (fits n_mels Ty mx) batch).
  { rewrite Forall_forall in *. intros item Hin.
    specialize (Hok item Hin). unfold sample_ok, mel_ok in Hok.
    repeat (apply andb_prop in Hok; destruct Hok as [Hok ?]).
    repeat match goal with
           | H : (_ =? _) = true |- _ => apply Nat.eqb_eq in H
           end.
    assert (last_dim2 (s_y item) <= m)
      by (apply Hall, in_map_iff; exists item; split; [reflexivity | exact Hin]).
    assert (length (s_x item) <= mx)
      by (apply Hallx, in_map_iff; exists item; split; [reflexivity | exact Hin]).
    unfold fits. repeat split; try assumption; lia. }
  assert (Hfirst : rows_dim2 (s_y first) = n_mels).
  { rewrite Forall_forall in Hfits.
    apply (Hfits first). rewrite Eb. left. reflexivity. }
  destruct (@collate_loop_returns n_mels Ty mx (Ty * 256) batch Hfits
              {| f_y := zeros3 zero (length batch) (rows_dim2 (s_y first)) Ty;
                 f_x := zeros2 0%Z (length batch) mx;
                 f_wav := zeros3 zero (length batch) 1 (Ty * 256);
                 f_y_lengths := []; f_x_lengths := []; f_wav_lengths := [];
                 f_spks := [] |} 0) as [a Ha];
    cbn [f_y f_x f_wav zeros3 zeros2 data3 data2 shape3 shape2 fst snd last_dim2];
    rewrite ?repeat_length; try lia; try reflexivity; try exact Hfirst.
  assert (Hfill : collate_fill zero num_downsamplings batch = Ok a).
  { unfold collate_fill. rewrite Hm. cbn [bind]. rewrite Hmx. cbn [bind].
    assert (Hg0 : getitem batch 0 = Ok first) by (rewrite Eb; reflexivity).
    rewrite Hg0. cbn [bind]. exact Ha. }
  destruct (loop_lists _ _ _ _ Ha) as [_ [_ Hs]]. cbn [f_spks app] in Hs.
  destruct (Hcodec (f_wav a)) as [c [c' [Hc Hc']]].
  unfold collate_call. rewrite Hfill.
  unfold collate_finish, batched_encodec. rewrite Hg. cbn [encodec_training].
  rewrite Hc. cbn [bind]. rewrite Hc'. cbn [bind read_local].
  destruct Hspk as [Hle | [v Hv]].
  - destruct (Z.ltb_spec 1 (c_n_spks self)); [lia |].
    cbn [bind]. eexists. eexists. reflexivity.
  - rewrite Hs, Hv. destruct (1 <? c_n_spks self)%Z; cbn [bind];
      eexists; eexists; reflexivity.
Qed.

End CollateReturns.

(** ** The definitions on concrete inputs *)

Lemma get_text_blank_interleaved_witness :
  exists out,
    get_text text_to_sequence_demo (dataset_demo records_two) (u "hi") false
    = Ok out
    /\ length out = 5.
Proof.
  destruct (@get_text_blank_interleaved Z text_to_sequence_demo
              (dataset_demo records_two) (u "hi") false
              (map Z.of_N (u "hi")) eq_refl eq_refl)
    as [out [H1 [H2 _]]].
  exists out. split; [exact H1 | exact H2].
Defined.

Lemma get_mel_sample_rate_witness :
  get_mel ta_load_demo mel_demo normalize_demo (dataset_demo records_two)
    (u "c.wav") = Err AssertionError.
Proof.
  refine (proj1 (proj1 (@get_mel_sample_rate Z nat next_raw_demo ta_load_demo
                          mel_demo normalize_demo text_to_sequence_demo
                          py_int_demo (dataset_demo records_two) (u "c.wav")
                          (constant_audio 70000 3%Z) 16000%Z eq_refl) _)).
  simpl. discriminate.
Defined.

Lemma getitem_min_duration_witness :
  getitem_dataset next_raw_demo ta_load_demo mel_demo normalize_demo
    text_to_sequence_demo py_int_demo (dataset_demo records_two) 2 0%Z 1
  = Some (Ok datapoint_b, 2)
  /\ 66150 <= last_dim2 (s_wav datapoint_b).
Proof.
  assert (H : getitem_dataset next_raw_demo ta_load_demo mel_demo
                normalize_demo text_to_sequence_demo py_int_demo
                (dataset_demo records_two) 2 0%Z 1
              = Some (Ok datapoint_b, 2)) by reflexivity.
  split; [exact H |].
  exact (proj1 (@getitem_min_duration Z nat next_raw_demo ta_load_demo mel_demo
                  normalize_demo text_to_sequence_demo py_int_demo
                  (dataset_demo records_two)) _ _ _ _ _ H).
Defined.

Lemma batch_pair_mel_ok :
  Forall (fun item => mel_ok 2 item = true) batch_pair.
Proof. repeat constructor. Qed.

Lemma collate_padded_lengths_witness :
  exists b s,
    collate_demo hparams_256 batch_pair = (Ok b, s)
    /\ last_dim3 (b_y b) mod compatibility_factor 2 = 0
    /\ last_dim3 (b_wav b) = last_dim3 (b_y b) * 256.
Proof.
  destruct (collate_demo hparams_256 batch_pair) as [[b | e] s] eqn:E;
    [| vm_compute in E; discriminate E].
  exists b, s. split; [reflexivity |].
  destruct (@collate_padded_lengths Z 0%Z 2 nat codec_demo
              squeeze_transpose_demo _ _ _ _ E)
    as [m [_ [_ [_ [Hmod [Hwav _]]]]]].
  split; [exact Hmod | exact Hwav].
Defined.

(** C1 (as stated) fails: with the hop length configured to 512 the
    collator of the data loaders still pads the waveform to 256 samples per
    mel frame: the mel tensor has 8 frames and the waveform tensor 2048
    samples, not 8 * 512. *)
Lemma collate_hop_length_counterexample :
  exists b s,
    collate_demo hparams_512 batch_pair = (Ok b, s)
    /\ last_dim3 (b_y b) = 8
    /\ last_dim3 (b_wav b) = 2048
    /\ Z.of_nat (last_dim3 (b_wav b))
       <> (Z.of_nat (last_dim3 (b_y b)) * hp_hop_length hparams_512)%Z.
Proof.
  destruct (collate_demo hparams_512 batch_pair) as [[b | e] s] eqn:E;
    [| vm_compute in E; discriminate E].
  exists b, s. split; [reflexivity |].
  vm_compute in E. injection E as <- _.
  split; [reflexivity |]. split; [reflexivity |].
  vm_compute. discriminate.
Qed.

Lemma collate_mel_copied_and_padded_witness :
  exists b s,
    collate_demo hparams_256 batch_pair = (Ok b, s)
    /\ nth_error (b_y_lengths b) 0 = Some 3
    /\ exists rows,
         nth_error (data3 (b_y b)) 0 = Some rows
         /\ cols_to rows 3 = [[1; 2; 3]; [4; 5; 6]]%Z
         /\ all_equal_to 0%Z (cols_from rows 3).
Proof.
  destruct (collate_demo hparams_256 batch_pair) as [[b | e] s] eqn:E;
    [| vm_compute in E; discriminate E].
  exists b, s. split; [reflexivity |].
  exact (@collate_mel_copied_and_padded Z 0%Z 2 nat codec_demo
           squeeze_transpose_demo _ _ _ _ 2 batch_pair_mel_ok E
           0 sample_short eq_refl).
Defined.

Lemma collate_wav_truncated_or_padded_witness :
  exists b s,
    collate_demo hparams_256 batch_pair = (Ok b, s)
    /\ nth_error (data3 (b_wav b)) 1
       = Some [firstn (last_dim3 (b_wav b)) (repeat 9%Z 2100)].
Proof.
  destruct (collate_demo hparams_256 batch_pair) as [[b | e] s] eqn:E;
    [| vm_compute in E; discriminate E].
  exists b, s. split; [reflexivity |].
  destruct (@collate_wav_truncated_or_padded Z 0%Z 2 nat codec_demo
              squeeze_transpose_demo _ _ _ _ E 1 sample_long eq_refl eq_refl)
    as [samples [Hd [_ [Htrunc _]]]].
  cbv [sample_long s_wav constant_audio data2] in Hd.
  injection Hd as <-. apply Htrunc.
  vm_compute in E. injection E as <- _.
  apply Nat.ltb_lt. vm_compute. reflexivity.
Defined.

Lemma collate_wav_lengths_truncated_witness :
  exists b s wav_len codes_lengths,
    collate_demo hparams_256 batch_pair = (Ok b, s)
    /\ nth_error (b_wav_lengths b) 1 = Some wav_len
    /\ wav_len = Nat.min 2100 (last_dim3 (b_y b) * 256)
    /\ b_codes_lengths b = Some codes_lengths
    /\ nth_error codes_lengths 1 = Some (1 + wav_len / 320).
Proof.
  destruct (collate_demo hparams_256 batch_pair) as [[b | e] s] eqn:E;
    [| vm_compute in E; discriminate E].
  destruct (@collate_wav_lengths_truncated Z 0%Z 2 nat codec_demo
              squeeze_transpose_demo _ _ _ _ E 1 sample_long eq_refl)
    as [wav_len [codes_lengths [H1 [H2 [_ [_ [H3 H4]]]]]]].
  exists b, s, wav_len, codes_lengths.
  split; [reflexivity |]. split; [exact H1 |]. split; [exact H2 |].
  split; [exact H3 | exact H4].
Defined.

(** C6, the code where the claim fails: a collator built with code
    extraction disabled returns no batch, whatever the batch, because the
    returned dict reads the local [codes] that only the enabled branch
    assigns; on the two-sample batch the call ends in UnboundLocalError.
    In the batches that are returned the speaker field is present exactly
    when n_spks > 1 and the code lengths are present. *)
Theorem collate_without_codes_fails :
  (forall (F C : Type) (zero : F) (num_downsamplings : nat)
          (encodec : bool -> Tensor3 F -> result C)
          (squeeze_transpose : C -> result C)
          (n_spks : Z) (batch : list (Sample F)),
      is_ok (fst (collate_call zero num_downsamplings encodec squeeze_transpose
                    (TextMelBatchCollate_init n_spks false) batch)) = false)
  /\ fst (collate_call 0%Z 2 codec_demo squeeze_transpose_demo
            (TextMelBatchCollate_init 1 false) batch_pair)
     = Err UnboundLocalError
  /\ (forall (F C : Type) (zero : F) (num_downsamplings : nat)
             (encodec : bool -> Tensor3 F -> result C)
             (squeeze_transpose : C -> result C)
             (self self' : TextMelBatchCollate) (batch : list (Sample F))
             (b : Batch F C),
        collate_call zero num_downsamplings encodec squeeze_transpose self batch
        = (Ok b, self') ->
        (b_spks b <> None <-> (1 < c_n_spks self)%Z)
        /\ get_codes self = true
        /\ b_codes_lengths b <> None).
Proof.
  split; [| split].
  - intros. apply collate_without_codes. reflexivity.
  - vm_compute. reflexivity.
  - intros F C zero k encodec sq self self' batch b H.
    apply collate_call_inv in H.
    destruct H as [a [_ [Hg [_ [_ [_ [_ [Hcl [_ [_ Hspk]]]]]]]]]].
    split; [exact Hspk |]. split; [exact Hg |]. rewrite Hcl. discriminate.
Qed.

(** * Further properties *)

(** ** str.split, str.strip and the lines of a file *)

Lemma mapM_nth {T U : Type} (f : T -> result U) (l : list T) (us : list U) :
  mapM f l = Ok us ->
  forall i a, nth_error l i = Some a ->
    exists b, nth_error us i = Some b /\ f a = Ok b.
Proof.
  revert us. induction l as [| a0 l IH]; simpl; intros us H i a Hi.
  - destruct i; discriminate Hi.
  - bind_inv H. bind_inv H. inversion H; subst.
    destruct i as [| i]; simpl in *.
    + inversion Hi; subst. exists v. split; [reflexivity | assumption].
    + eapply IH; eauto.
Qed.

Lemma split_scan_skip (sep : str) (s : str) :
  forall k cur, split_scan sep s k cur = split_scan sep (skipn k s) 0 cur.
Proof.
  induction s as [| c s IH]; intros k cur.
  - destruct k; reflexivity.
  - destruct k as [| k]; [reflexivity |]. simpl. apply IH.
Qed.

Lemma split_scan_nonempty (sep : str) (s : str) :
  forall k cur, split_scan sep s k cur <> [].
Proof.
  induction s as [| c s IH]; intros k cur; cbn [split_scan]; [discriminate |].
  destruct k as [| k]; [| apply IH].
  destruct (startswith (c :: s) sep); [discriminate | apply IH].
Qed.

Lemma startswith_spec (p : str) :
  forall s, startswith s p = true -> s = p ++ skipn (length p) s.
Proof.
  induction p as [| a p IH]; intros s H; [reflexivity |].
  destruct s as [| b s]; simpl in H; [discriminate |].
  apply andb_prop in H. destruct H as [Hab Hp]. apply N.eqb_eq in Hab.
  subst b. simpl. f_equal. apply IH. exact Hp.
Qed.

Lemma join_cons (sep a : str) (rest : list str) :
  rest <> [] -> join sep (a :: rest) = a ++ sep ++ join sep rest.
Proof. destruct rest; [congruence | reflexivity]. Qed.

(** Joining the fields of a split with the separator gives the string
    back. *)
Lemma join_split_scan (sep : str) :
  sep <> [] ->
  forall n s cur,
    length s <= n -> join sep (split_scan sep s 0 cur) = rev cur ++ s.
Proof.
  intros Hsep. induction n as [| n IH]; intros s cur Hn.
  - destruct s; [| simpl in Hn; lia]. simpl. rewrite app_nil_r. reflexivity.
  - destruct s as [| c s]; [simpl; rewrite app_nil_r; reflexivity |].
    simpl in Hn. cbn [split_scan].
    destruct (startswith (c :: s) sep) eqn:Hstart.
    + rewrite join_cons by apply split_scan_nonempty.
      rewrite split_scan_skip.
      rewrite IH by (rewrite length_skipn; lia).
      apply startswith_spec in Hstart.
      destruct sep as [| d sep']; [congruence |].
      simpl in Hstart. injection Hstart as Hc Hs.
      simpl. rewrite Nat.sub_0_r, <- Hs, Hc. reflexivity.
    + rewrite IH by lia. simpl. rewrite <- app_assoc. reflexivity.
Qed.

Lemma lstrip_suffix (s : str) : exists pre, s = pre ++ lstrip s.
Proof.
  induction s as [| c s [pre IH]]; [exists []; reflexivity |]. simpl.
  destruct (isspace c).
  - exists (c :: pre). simpl. f_equal. exact IH.
  - exists []. reflexivity.
Qed.

Lemma lstrip_in (s : str) (c : char) : In c (lstrip s) -> In c s.
Proof.
  destruct (lstrip_suffix s) as [pre E]. intros H. rewrite E.
  apply in_or_app. right. exact H.
Qed.

Lemma rstrip_in (s : str) (c : char) : In c (rstrip s) -> In c s.
Proof.
  unfold rstrip. intros H. apply in_rev in H. apply lstrip_in in H.
  apply in_rev. exact H.
Qed.

Lemma rstrip_app_space (s : str) (c : char) :
  isspace c = true -> rstrip (s ++ [c]) = rstrip s.
Proof.
  intros H. unfold rstrip. rewrite rev_app_distr. simpl. rewrite H.
  reflexivity.
Qed.

Lemma lstrip_app (a b : str) :
  lstrip (a ++ b) = match lstrip a with
                    | [] => lstrip b
                    | _ :: _ => lstrip a ++ b
                    end.
Proof.
  induction a as [| c a IH]; simpl; [destruct (lstrip b); reflexivity |].
  destruct (isspace c); [exact IH | reflexivity].
Qed.

(** A stripped line holds no line feed when the line has none before its
    end. *)
Lemma strip_line_no_LF (body : str) :
  ~ In LF body ->
  ~ In LF (strip (body ++ [LF])) /\ ~ In LF (strip body).
Proof.
  intros Hbody. split.
  - unfold strip. rewrite lstrip_app.
    destruct (lstrip body) as [| c t] eqn:E.
    + simpl. intros H. exact H.
    + rewrite rstrip_app_space by reflexivity.
      intros H. apply rstrip_in in H. rewrite <- E in H.
      apply lstrip_in in H. exact (Hbody H).
  - intros H. unfold strip in H. apply rstrip_in, lstrip_in in H.
    exact (Hbody H).
Qed.

Lemma lines_from_shape (s : str) :
  forall cur line,
    ~ In LF cur ->
    In line (lines_from s cur) ->
    exists body, ~ In LF body /\ (line = body ++ [LF] \/ line = body).
Proof.
  induction s as [| c s IH]; intros cur line Hcur Hin; simpl in Hin.
  - destruct cur as [| a cur']; [contradiction |].
    destruct Hin as [E | []]. subst line. exists (rev (a :: cur')).
    split; [| right; reflexivity].
    intros H. apply in_rev in H. exact (Hcur H).
  - destruct (N.eqb_spec c LF) as [E | Hne].
    + destruct Hin as [E' | Hin].
      * subst line c. exists (rev cur). split; [| left; reflexivity].
        intros H. apply in_rev in H. exact (Hcur H).
      * apply (IH [] line); [intros [] | exact Hin].
    + apply (IH (c :: cur) line); [| exact Hin].
      intros [E | H]; [congruence | exact (Hcur H)].
Qed.

Lemma join_in (sep : str) (fields : list str) (f : str) (c : char) :
  In f fields -> In c f -> In c (join sep fields).
Proof.
  induction fields as [| a rest IH]; intros Hf Hc; [contradiction |].
  destruct rest as [| a' rest'].
  - destruct Hf as [E | []]. subst. exact Hc.
  - rewrite join_cons by discriminate. destruct Hf as [E | Hf].
    + subst. apply in_or_app. left. exact Hc.
    + apply in_or_app. right. apply in_or_app. right. apply IH; assumption.
Qed.

Lemma mapM_in {T U : Type} (f : T -> result U) (l : list T) (us : list U) :
  mapM f l = Ok us ->
  forall b, In b us -> exists a, In a l /\ f a = Ok b.
Proof.
  revert us. induction l as [| a0 l IH]; simpl; intros us H b Hb.
  - inversion H; subst. contradiction.
  - bind_inv H. bind_inv H. inversion H; subst.
    destruct Hb as [Eb | Hb].
    + subst. exists a0. auto.
    + destruct (IH _ E0 b Hb) as [a [Ha Hf]]. exists a. auto.
Qed.

(** ** parse_filelist *)

(** X1: every record of a parsed manifest has at least one field, and its
    fields joined with the separator are the stripped line it came from:
    parsing loses nothing of a line but the surrounding whitespace. *)
Theorem parse_filelist_join_roundtrip :
  forall (read_file : str -> result str) (path sep content : str)
         (recs : list record),
    read_file path = Ok content ->
    parse_filelist read_file path sep = Ok recs ->
    forall i line,
      nth_error (file_lines content) i = Some line ->
      exists r,
        nth_error recs i = Some r /\ r <> [] /\ join sep r = strip line.
Proof.
  intros read_file path sep content recs Hread Hparse i line Hi.
  unfold parse_filelist in Hparse. rewrite Hread in Hparse. cbn [bind] in Hparse.
  destruct (mapM_nth _ _ Hparse _ Hi) as [r [Hr Hsplit]].
  exists r. split; [exact Hr |].
  unfold split in Hsplit. destruct sep as [| d sep'] eqn:Es; [discriminate |].
  inversion Hsplit; subst r. split; [apply split_scan_nonempty |].
  rewrite (@join_split_scan (d :: sep') ltac:(discriminate)
             (length (strip line)) (strip line) [] (le_n _)).
  reflexivity.
Qed.

Lemma parse_filelist_join_roundtrip_witness :
  exists r,
    nth_error [[u "a.wav"; u "hello"]; [[]]; [u "b.wav"; u "world"]] 0 = Some r
    /\ r <> []
    /\ join default_split_char r = strip (u "a.wav|hello" ++ [LF]).
Proof.
  exact (@parse_filelist_join_roundtrip fs_blank (u "filelist.txt")
           default_split_char manifest_blank
           [[u "a.wav"; u "hello"]; [[]]; [u "b.wav"; u "world"]]
           eq_refl eq_refl 0 (u "a.wav|hello" ++ [LF]) eq_refl).
Defined.

(** X2: no field of a parsed record contains a line feed: the line
    terminator never reaches a path, a speaker id or a text. *)
Theorem parse_filelist_fields_no_line_feed :
  forall (read_file : str -> result str) (path sep : str)
         (recs : list record),
    parse_filelist read_file path sep = Ok recs ->
    forall r field, In r recs -> In field r -> ~ In LF field.
Proof.
  intros read_file path sep recs Hparse r field Hr Hfield HLF.
  unfold parse_filelist in Hparse. bind_inv Hparse. rename v into content.
  destruct (mapM_in _ _ Hparse _ Hr) as [line [Hline Hsplit]].
  unfold split in Hsplit. destruct sep as [| d sep'] eqn:Es; [discriminate |].
  inversion Hsplit; subst r.
  assert (Hjoin : In LF (strip line)).
  { pose proof (@join_split_scan (d :: sep') ltac:(discriminate)
                  (length (strip line)) (strip line) [] (le_n _)) as Hj.
    cbn [rev app] in Hj. rewrite <- Hj. eapply join_in; eassumption. }
  unfold file_lines in Hline.
  destruct (lines_from_shape _ [] line (fun H => H) Hline)
    as [body [Hbody [El | El]]]; subst line;
    destruct (@strip_line_no_LF body Hbody) as [H1 H2]; auto.
Qed.

Lemma parse_filelist_fields_no_line_feed_witness :
  ~ In LF (u "hello").
Proof.
  exact (@parse_filelist_fields_no_line_feed fs_blank (u "filelist.txt")
           default_split_char
           [[u "a.wav"; u "hello"]; [[]]; [u "b.wav"; u "world"]]
           eq_refl [u "a.wav"; u "hello"] (u "hello")
           (or_introl eq_refl) (or_intror (or_introl eq_refl))).
Defined.

(** X3: what [parse_filelist] does at its edges: the error of a file that
    cannot be read is passed on; a file without lines parses to no record
    whatever the separator, an empty one included; and an empty separator
    raises ValueError as soon as the file has a line. *)
Theorem parse_filelist_edges :
  forall (read_file : str -> result str) (path : str),
    (forall e sep, read_file path = Err e ->
                   parse_filelist read_file path sep = Err e)
    /\ (forall content sep,
          read_file path = Ok content -> file_lines content = [] ->
          parse_filelist read_file path sep = Ok [])
    /\ (forall content,
          read_file path = Ok content -> file_lines content <> [] ->
          parse_filelist read_file path [] = Err ValueError).
Proof.
  intros read_file path. unfold parse_filelist. split; [| split].
  - intros e sep H. rewrite H. reflexivity.
  - intros content sep H Hl. rewrite H. cbn [bind]. rewrite Hl. reflexivity.
  - intros content H Hl. rewrite H. cbn [bind].
    destruct (file_lines content) as [| line ls]; [congruence | reflexivity].
Qed.

(** ** random.shuffle and TextMelDataset.__init__ *)

Lemma set_nth_perm {T : Type} (l : list T) :
  forall j b v,
    nth_error l j = Some b -> Permutation (b :: set_nth l j v) (v :: l).
Proof.
  induction l as [| y t IH]; intros j b v Hj; [destruct j; discriminate |].
  destruct j as [| j]; simpl in *.
  - inversion Hj; subst. apply perm_swap.
  - eapply perm_trans; [apply perm_swap |].
    eapply perm_trans; [apply perm_skip, (IH _ _ _ Hj) |]. apply perm_swap.
Qed.

Lemma swap_perm {T : Type} (l : list T) :
  forall i j, Permutation (swap l i j) l.
Proof.
  assert (H : forall (l : list T) i j a b,
             nth_error l i = Some a -> nth_error l j = Some b ->
             Permutation (set_nth (set_nth l i b) j a) l).
  { clear l. induction l as [| x t IH]; intros i j a b Hi Hj;
      [destruct i; discriminate |].
    destruct i as [| i], j as [| j]; simpl in *.
    - inversion Hi; inversion Hj; subst. apply Permutation_refl.
    - inversion Hi; subst. apply set_nth_perm. exact Hj.
    - inversion Hj; subst. apply set_nth_perm. exact Hi.
    - apply perm_skip. apply IH; assumption. }
  intros i j. unfold swap.
  destruct (nth_error l i) as [a |] eqn:Hi; [| apply Permutation_refl].
  destruct (nth_error l j) as [b |] eqn:Hj; [| apply Permutation_refl].
  apply H; assumption.
Qed.

Lemma shuffle_perm {rng T : Type} (next_raw : rng -> nat * rng)
    (l : list T) (st : rng) :
  Permutation (fst (shuffle next_raw l st)) l.
Proof.
  unfold shuffle. generalize (length l - 1) as i. intros i. revert l st.
  induction i as [| i IH]; intros l st; simpl; [apply Permutation_refl |].
  unfold randbelow. destruct (next_raw st) as [r st'].
  eapply perm_trans; [apply IH | apply swap_perm].
Qed.

(** X4: the records of a dataset are a permutation of the records parsed
    from its manifest: the seeded shuffle of the constructor loses no record
    and duplicates none. *)
Theorem TextMelDataset_init_permutation :
  forall (F rng : Type) (zero one : F) (next_raw : rng -> nat * rng)
         (random_seed : option Z -> rng) (read_file : str -> result str)
         path n_spks cleaners add_blank n_fft n_mels sample_rate hop_length
         win_length f_min f_max data_parameters seed ds st,
    TextMelDataset_init zero one next_raw random_seed read_file path
      n_spks cleaners add_blank n_fft n_mels sample_rate hop_length
      win_length f_min f_max data_parameters seed = Ok (ds, st) ->
    exists recs,
      parse_filelist read_file path default_split_char = Ok recs
      /\ Permutation (filepaths_and_text ds) recs.
Proof.
  intros F rng zero one next_raw random_seed read_file path n_spks cleaners
    add_blank n_fft n_mels sample_rate hop_length win_length f_min f_max
    data_parameters seed ds st H.
  unfold TextMelDataset_init in H. bind_inv H.
  exists v. split; [assumption |].
  pose proof (shuffle_perm next_raw v (random_seed seed)) as Hperm.
  destruct (shuffle next_raw v (random_seed seed)) as [sh st0].
  inversion H; subst. exact Hperm.
Qed.

Lemma TextMelDataset_init_permutation_witness :
  exists ds st,
    dataset_init_demo fs_blank (u "filelist.txt") = Ok (ds, st)
    /\ Permutation (filepaths_and_text ds)
         [[u "a.wav"; u "hello"]; [[]]; [u "b.wav"; u "world"]].
Proof.
  destruct (dataset_init_demo fs_blank (u "filelist.txt")) as [[ds st] | e] eqn:E;
    [| vm_compute in E; discriminate E].
  exists ds, st. split; [reflexivity |].
  unfold dataset_init_demo in E.
  destruct (TextMelDataset_init_permutation _ _ _ _ _ _ _ _ _ _ _ _ _ _ _ _ _ _ E)
    as [recs [Hparse Hperm]].
  assert (Hrecs : recs = [[u "a.wav"; u "hello"]; [[]]; [u "b.wav"; u "world"]]).
  { vm_compute in Hparse. inversion Hparse. reflexivity. }
  rewrite <- Hrecs. exact Hperm.
Defined.

(** ** get_datapoint and __getitem__ *)

Lemma getitem_In {T : Type} (l : list T) (i : nat) (v : T) :
  getitem l i = Ok v -> In v l.
Proof.
  unfold getitem. destruct (nth_error l i) eqn:E; [| discriminate].
  intros H. inversion H; subst. eapply nth_error_In. exact E.
Qed.

Lemma getitem_int_In {T : Type} (l : list T) (index : Z) (v : T) :
  getitem_int l index = Ok v -> In v l.
Proof.
  unfold getitem_int.
  destruct ((0 <=? index)%Z && (index <? Z.of_nat (length l))%Z);
    [apply getitem_In |].
  destruct ((- Z.of_nat (length l) <=? index)%Z && (index <? 0)%Z);
    [apply getitem_In | discriminate].
Qed.

Lemma getitem_int_in_range {T : Type} (l : list T) (index : Z) :
  (- Z.of_nat (length l) <= index < Z.of_nat (length l))%Z ->
  exists v, getitem_int l index = Ok v.
Proof.
  intros H. unfold getitem_int, getitem.
  destruct (Z.leb_spec 0 index), (Z.ltb_spec index (Z.of_nat (length l)));
    cbn [andb]; try lia.
  - destruct (nth_error l (Z.to_nat index)) eqn:E; [eexists; reflexivity |].
    apply nth_error_None in E. lia.
  - destruct (Z.leb_spec (- Z.of_nat (length l)) index), (Z.ltb_spec index 0);
      cbn [andb]; try lia.
    destruct (nth_error l (Z.to_nat (Z.of_nat (length l) + index))) eqn:E;
      [eexists; reflexivity |].
    apply nth_error_None in E. lia.
Qed.

Lemma getitem_int_out_of_range {T : Type} (l : list T) (index : Z) :
  (index < - Z.of_nat (length l) \/ Z.of_nat (length l) <= index)%Z ->
  getitem_int l index = Err IndexError.
Proof.
  intros H. unfold getitem_int.
  destruct (Z.leb_spec 0 index), (Z.ltb_spec index (Z.of_nat (length l)));
    cbn [andb]; try lia;
    destruct (Z.leb_spec (- Z.of_nat (length l)) index), (Z.ltb_spec index 0);
    cbn [andb]; try lia; reflexivity.
Qed.

Lemma getitem_int_negative {T : Type} (l : list T) (index : Z) :
  (- Z.of_nat (length l) <= index < 0)%Z ->
  getitem_int l index = getitem_int l (Z.of_nat (length l) + index).
Proof.
  intros H. unfold getitem_int.
  destruct (Z.leb_spec 0 index); cbn [andb]; [lia |].
  destruct (Z.leb_spec (- Z.of_nat (length l)) index), (Z.ltb_spec index 0);
    cbn [andb]; try lia.
  destruct (Z.leb_spec 0 (Z.of_nat (length l) + index)),
    (Z.ltb_spec (Z.of_nat (length l) + index) (Z.of_nat (length l)));
    cbn [andb]; try lia.
  reflexivity.
Qed.

Section DatasetFurther.

Variable F : Type.
Variable rng : Type.
Variable next_raw : rng -> nat * rng.
Variable ta_load : str -> result (Tensor2 F * Z).
Variable mel_spectrogram :
  Tensor2 F -> Z -> Z -> Z -> Z -> Z -> F -> F -> bool -> result (Tensor2 F).
Variable normalize : Tensor2 F -> F -> F -> Tensor2 F.
Variable text_to_sequence : str -> list str -> result (list Z).
Variable py_int : str -> result Z.
Variable self : TextMelDataset F.

Local Notation "'get_mel_'" := (get_mel ta_load mel_spectrogram normalize self).
Local Notation "'get_text_'" := (get_text text_to_sequence self).
Local Notation "'get_datapoint_'" :=
  (get_datapoint ta_load mel_spectrogram normalize text_to_sequence py_int self).
Local Notation "'getitem_'" :=
  (getitem_dataset next_raw ta_load mel_spectrogram normalize text_to_sequence
     py_int self).

(** X5: a record with too few fields gives no sample: in single-speaker
    mode a record of fewer than two fields (the record of a blank line among
    them) raises IndexError; in multi-speaker mode a record of fewer than
    two fields raises IndexError and one of two fields raises the error of
    [int] on its second field or else IndexError. *)
Theorem get_datapoint_too_few_fields :
  (forall rec, (n_spks self <= 1)%Z -> length rec < 2 ->
     get_datapoint ta_load mel_spectrogram normalize text_to_sequence py_int
       self rec = Err IndexError)
  /\ (forall rec, (1 < n_spks self)%Z -> length rec < 2 ->
        get_datapoint ta_load mel_spectrogram normalize text_to_sequence py_int
          self rec = Err IndexError)
  /\ (forall path field, (1 < n_spks self)%Z ->
        get_datapoint ta_load mel_spectrogram normalize text_to_sequence py_int
          self [path; field]
        = match py_int field with
          | Ok _ => Err IndexError
          | Err e => Err e
          end).
Proof.
  unfold get_datapoint, getitem. split; [| split].
  - intros rec Hs Hlen. destruct (Z.ltb_spec 1 (n_spks self)); [lia |].
    destruct rec as [| a [| b rec]]; simpl in Hlen; try lia; reflexivity.
  - intros rec Hs Hlen. destruct (Z.ltb_spec 1 (n_spks self)); [| lia].
    destruct rec as [| a [| b rec]]; simpl in Hlen; try lia; reflexivity.
  - intros path field Hs. destruct (Z.ltb_spec 1 (n_spks self)); [| lia].
    cbn [nth_error bind]. destruct (py_int field); reflexivity.
Qed.

(** X6: what a built sample is made of. In single-speaker mode it is the
    encoding of the second field and the mel and audio of the file named by
    the first field, without a speaker; in multi-speaker mode the speaker is
    [int] of the second field and the text is the third field. Fields beyond
    those are not read. *)
Theorem get_datapoint_sample :
  forall rec datapoint,
    get_datapoint ta_load mel_spectrogram normalize text_to_sequence py_int
      self rec = Ok datapoint ->
    exists path text,
      nth_error rec 0 = Some path
      /\ get_text text_to_sequence self text (add_blank self)
         = Ok (s_x datapoint)
      /\ get_mel ta_load mel_spectrogram normalize self path
         = Ok (s_y datapoint, s_wav datapoint)
      /\ (((n_spks self <= 1)%Z
           /\ nth_error rec 1 = Some text /\ s_spk datapoint = None)
          \/ ((1 < n_spks self)%Z
              /\ nth_error rec 2 = Some text
              /\ exists field spk,
                   nth_error rec 1 = Some field
                   /\ py_int field = Ok spk
                   /\ s_spk datapoint = Some spk)).
Proof.
  intros rec dp H. unfold get_datapoint in H. bind_inv H.
  destruct v as [[path spk] text]. bind_inv H. bind_inv H.
  destruct v0 as [mel audio]. inversion H; subst dp; cbn [s_x s_y s_spk s_wav].
  exists path, text. unfold getitem in E.
  destruct (Z.ltb_spec 1 (n_spks self)) as [Hs | Hs].
  - destruct (nth_error rec 0) as [p |] eqn:E0'; [| discriminate].
    cbn [bind] in E.
    destruct (nth_error rec 1) as [f |] eqn:E1'; [| discriminate].
    cbn [bind] in E. destruct (py_int f) as [id |] eqn:Eid; [| discriminate].
    cbn [bind] in E.
    destruct (nth_error rec 2) as [t |] eqn:E2'; [| discriminate].
    inversion E; subst. repeat split; try assumption.
    right. repeat split; try assumption. exists f, id. auto.
  - destruct (nth_error rec 0) as [p |] eqn:E0'; [| discriminate].
    cbn [bind] in E.
    destruct (nth_error rec 1) as [t |] eqn:E1'; [| discriminate].
    inversion E; subst. repeat split; try assumption.
    left. auto.
Qed.

(** X7: the index of an access follows Python's list indexing: an index
    outside [-len, len) raises IndexError at once, on an empty dataset every
    index does, and no retry index is drawn; an index in [-len, 0) is the
    access at len + index. *)
Theorem getitem_index_range :
  (forall fuel index st,
      (index < - Z.of_nat (len self) \/ Z.of_nat (len self) <= index)%Z ->
      getitem_ (S fuel) index st = Some (Err IndexError, st))
  /\ (forall fuel index st,
        (- Z.of_nat (len self) <= index < 0)%Z ->
        getitem_ fuel index st = getitem_ fuel (Z.of_nat (len self) + index) st).
Proof.
  split.
  - intros fuel index st H. rewrite getitem_dataset_S.
    unfold len in H. rewrite (@getitem_int_out_of_range _ _ _ H). reflexivity.
  - intros fuel index st H. destruct fuel as [| fuel]; [reflexivity |].
    rewrite !getitem_dataset_S. unfold len in *.
    rewrite (@getitem_int_negative _ _ _ H). reflexivity.
Qed.

(** X8: when every record of the dataset gives a waveform of fewer than
    66150 samples, an access at a valid index never returns: whatever the
    recursion depth allowed, it is exceeded, with no sample and no error. *)
Theorem getitem_all_short_never_returns :
  (forall rec, In rec (filepaths_and_text self) ->
     exists datapoint,
       get_datapoint_ rec = Ok datapoint
       /\ last_dim2 (s_wav datapoint) < 66150) ->
  forall fuel index st,
    (- Z.of_nat (len self) <= index < Z.of_nat (len self))%Z ->
    getitem_ fuel index st = None.
Proof.
  intros Hshort. induction fuel as [| fuel IH]; intros index st Hidx;
    [reflexivity |].
  rewrite getitem_dataset_S. unfold len in Hidx.
  destruct (@getitem_int_in_range _ _ _ Hidx) as [rec Hrec].
  rewrite Hrec. cbn [bind].
  destruct (Hshort rec (@getitem_int_In _ _ _ _ Hrec)) as [dp [Hdp Hlt]].
  rewrite Hdp.
  destruct (Nat.ltb_spec (last_dim2 (s_wav dp)) min_wav_length) as [_ | Hge];
    [| exfalso; apply (Nat.lt_irrefl _ (Nat.lt_le_trans _ _ _ Hlt Hge))].
  destruct (@randint_index rng next_raw (length (filepaths_and_text self)) st
              (@getitem_int_nonempty _ _ _ _ Hrec)) as [j [st' [Hr Hj]]].
  unfold len. rewrite Hr. apply IH. unfold len. lia.
Qed.

(** X9: a sample returned by an access is the sample built from a record
    of the dataset, also after retries. *)
Theorem getitem_returns_a_record :
  forall fuel index st datapoint st',
    getitem_dataset next_raw ta_load mel_spectrogram normalize
      text_to_sequence py_int self fuel index st = Some (Ok datapoint, st') ->
    exists rec,
      In rec (filepaths_and_text self)
      /\ get_datapoint ta_load mel_spectrogram normalize text_to_sequence
           py_int self rec = Ok datapoint.
Proof.
  induction fuel as [| fuel IH]; intros index st dp st' H; [discriminate |].
  rewrite getitem_dataset_S in H.
  destruct (getitem_int (filepaths_and_text self) index) as [rec | e] eqn:Hrec;
    [| discriminate].
  cbn [bind] in H. destruct (get_datapoint_ rec) as [dp0 | e] eqn:Hdp;
    [| discriminate].
  destruct (last_dim2 (s_wav dp0) <? min_wav_length).
  - destruct (randint next_raw 0 (Z.of_nat (len self) - 1) st) as [[j | e] st1];
      [| discriminate].
    eapply IH. exact H.
  - inversion H; subst. exists rec. split; [| exact Hdp].
    eapply getitem_int_In. exact Hrec.
Qed.

End DatasetFurther.

Lemma get_datapoint_sample_witness :
  exists path text,
    nth_error [u "b.wav"; u "world"] 0 = Some path
    /\ get_text text_to_sequence_demo (dataset_demo records_two) text true
       = Ok (s_x datapoint_b)
    /\ get_mel ta_load_demo mel_demo normalize_demo (dataset_demo records_two)
         path = Ok (s_y datapoint_b, s_wav datapoint_b).
Proof.
  destruct (@get_datapoint_sample Z ta_load_demo mel_demo normalize_demo
              text_to_sequence_demo py_int_demo (dataset_demo records_two)
              [u "b.wav"; u "world"] datapoint_b eq_refl)
    as [path [text [H0 [H1 [H2 _]]]]].
  exists path, text. split; [exact H0 |]. split; [exact H1 | exact H2].
Defined.

Lemma getitem_all_short_never_returns_witness :
  getitem_dataset next_raw_demo ta_load_demo mel_demo normalize_demo
    text_to_sequence_demo py_int_demo (dataset_demo records_short) 5 0%Z 0
  = None.
Proof.
  apply (@getitem_all_short_never_returns Z nat next_raw_demo ta_load_demo
           mel_demo normalize_demo text_to_sequence_demo py_int_demo
           (dataset_demo records_short)).
  - intros rec [<- | []]. exists datapoint_a. split; [reflexivity |].
    apply Nat.ltb_lt. reflexivity.
  - unfold len. simpl. lia.
Defined.

Lemma getitem_returns_a_record_witness :
  exists rec,
    In rec records_two
    /\ get_datapoint ta_load_demo mel_demo normalize_demo text_to_sequence_demo
         py_int_demo (dataset_demo records_two) rec = Ok datapoint_b.
Proof.
  exact (@getitem_returns_a_record Z nat next_raw_demo ta_load_demo mel_demo
           normalize_demo text_to_sequence_demo py_int_demo
           (dataset_demo records_two) 2 0%Z 1 datapoint_b 2 eq_refl).
Defined.

(** ** TextMelBatchCollate: the symbol tensor, shapes, speakers, codes *)

Lemma setitem2_inv {T : Type} (t t' : Tensor2 T) (i stop : nat) (src : list T) :
  setitem2 t i stop src = Ok t' ->
  exists row,
    nth_error (data2 t) i = Some row
    /\ shape2 t' = shape2 t
    /\ data2 t' = set_nth (data2 t) i
         (overwrite row (expand (Nat.min stop (last_dim2 t)) src)).
Proof.
  unfold setitem2, getitem. intros H.
  destruct (nth_error (data2 t) i) as [row |] eqn:Hb; [| discriminate].
  cbn [bind] in H.
  destruct (broadcasts (length src) (Nat.min stop (last_dim2 t)));
    [| discriminate].
  inversion H; subst; simpl. exists row. auto.
Qed.

Lemma padded_rows_well_shaped {T : Type} (zero : T) (n c w : nat)
    (rows : list (list T)) :
  well_shaped_rows n c rows = true -> c <= w ->
  well_shaped_rows n w (map (fun r => r ++ repeat zero (w - c)) rows) = true.
Proof.
  unfold well_shaped_rows. intros H Hc. apply andb_prop in H.
  destruct H as [Hn Hrows]. rewrite length_map, Hn. cbn [andb].
  rewrite forallb_forall in *. intros r' Hin. apply in_map_iff in Hin.
  destruct Hin as [r [<- Hr]]. specialize (Hrows r Hr).
  apply Nat.eqb_eq in Hrows. apply Nat.eqb_eq.
  rewrite length_app, repeat_length. lia.
Qed.

Lemma forallb_nth {T : Type} (f : T -> bool) (l : list T) :
  (forall i v, nth_error l i = Some v -> f v = true) -> forallb f l = true.
Proof.
  intros H. apply forallb_forall. intros v Hin.
  apply In_nth_error in Hin. destruct Hin as [i Hi]. exact (H i v Hi).
Qed.

Lemma sample_ok_inv {F : Type} (n_mels : nat) (s : Sample F) :
  sample_ok n_mels s = true ->
  well_shaped2 (s_y s) = true /\ rows_dim2 (s_y s) = n_mels
  /\ well_shaped2 (s_wav s) = true /\ rows_dim2 (s_wav s) = 1.
Proof.
  unfold sample_ok, mel_ok. intros H.
  apply andb_prop in H. destruct H as [H Hc].
  apply andb_prop in H. destruct H as [H Hw].
  apply andb_prop in H. destruct H as [Hy Hn].
  apply Nat.eqb_eq in Hc. apply Nat.eqb_eq in Hn. auto.
Qed.

Section CollateFurther.

Variable F : Type.
Variable zero : F.
Variable num_downsamplings : nat.
Variable C : Type.
Variable encodec : bool -> Tensor3 F -> result C.
Variable squeeze_transpose : C -> result C.

Local Notation "'collate_'" :=
  (collate_call zero num_downsamplings encodec squeeze_transpose).

Lemma collate_step_inv_x (wml : nat) (a a' : Filled F) (i : nat)
    (item : Sample F) :
  collate_step wml a i item = Ok a' ->
  setitem2 (f_x a) i (length (s_x item)) (s_x item) = Ok (f_x a')
  /\ f_x_lengths a' = f_x_lengths a ++ [length (s_x item)].
Proof.
  unfold collate_step. intros H.
  bind_inv H. bind_inv H. bind_inv H. inversion H; subst; simpl.
  split; [assumption | reflexivity].
Qed.

(** The symbol tensor and the data lengths after the loop. *)
Lemma loop_x (wml : nat) (batch : list (Sample F)) :
  forall a i a',
    collate_loop wml a i batch = Ok a' ->
    shape2 (f_x a') = shape2 (f_x a)
    /\ length (data2 (f_x a')) = length (data2 (f_x a))
    /\ length (data3 (f_y a')) = length (data3 (f_y a))
    /\ length (data3 (f_wav a')) = length (data3 (f_wav a))
    /\ f_x_lengths a' = f_x_lengths a ++ map (fun it => length (s_x it)) batch
    /\ (forall k, k < i ->
          nth_error (data2 (f_x a')) k = nth_error (data2 (f_x a)) k)
    /\ (forall j item, nth_error batch j = Some item ->
          exists row,
            nth_error (data2 (f_x a)) (i + j) = Some row
            /\ nth_error (data2 (f_x a')) (i + j)
               = Some (overwrite row
                         (expand (Nat.min (length (s_x item)) (last_dim2 (f_x a)))
                            (s_x item)))).
Proof.
  induction batch as [| item0 rest IH]; intros a i a' H; simpl in H.
  - inversion H; subst. rewrite app_nil_r. repeat split.
    intros j item Hj. destruct j; discriminate Hj.
  - bind_inv H. rename v into a1.
    pose proof (collate_step_inv _ _ _ _ E) as [Hy [Hw _]].
    pose proof (collate_step_inv_x _ _ _ _ E) as [Hx Hxl].
    apply setitem3_inv in Hy. destruct Hy as [yb [_ [_ [_ [_ Hyd]]]]].
    apply setitem3_inv in Hw. destruct Hw as [wb [_ [_ [_ [_ Hwd]]]]].
    apply setitem2_inv in Hx. destruct Hx as [row [Hrow [Hxs Hxd]]].
    destruct (IH _ _ _ H) as [IHs [IHlx [IHly [IHlw [IHl [IHk IHj]]]]]].
    assert (Hi : i < length (data2 (f_x a))).
    { apply nth_error_Some. congruence. }
    split; [congruence |].
    split; [rewrite IHlx, Hxd; apply set_nth_length |].
    split; [rewrite IHly, Hyd; apply set_nth_length |].
    split; [rewrite IHlw, Hwd; apply set_nth_length |].
    split; [rewrite IHl, Hxl; simpl; rewrite <- app_assoc; reflexivity |].
    split.
    + intros k Hk. rewrite IHk by lia. rewrite Hxd.
      apply set_nth_other. lia.
    + intros j item Hj. destruct j as [| j]; simpl in Hj.
      * inversion Hj; subst item0. exists row.
        rewrite Nat.add_0_r. split; [exact Hrow |].
        rewrite IHk by lia. rewrite Hxd. apply set_nth_same. exact Hi.
      * destruct (IHj j item Hj) as [row' [Hrow' Hp']].
        replace (i + S j) with (S i + j) by lia.
        exists row'. unfold last_dim2 in *. rewrite Hxs in Hp'.
        split; [| exact Hp'].
        rewrite <- Hrow', Hxd. symmetry. apply set_nth_other. lia.
Qed.

(** A returned batch, read back in full from the filled state. *)
Lemma collate_call_inv_full (self self' : TextMelBatchCollate)
    (batch : list (Sample F)) (b : Batch F C) :
  collate_ self batch = (Ok b, self') ->
  exists a c,
    collate_fill zero num_downsamplings batch = Ok a
    /\ b_x b = f_x a /\ b_x_lengths b = f_x_lengths a
    /\ b_y b = f_y a /\ b_wav b = f_wav a
    /\ b_y_lengths b = f_y_lengths a
    /\ b_wav_lengths b = f_wav_lengths a
    /\ encodec false (f_wav a) = Ok c
    /\ squeeze_transpose c = Ok (b_codes b)
    /\ b_prompt_spec b = f_y a
    /\ b_prompt_lengths b = f_y_lengths a
    /\ b_prompt_codes b = b_codes b
    /\ b_prompt_codes_lengths b = b_codes_lengths b
    /\ self' = {| c_n_spks := c_n_spks self; get_codes := get_codes self;
                  encodec_training := false |}
    /\ (((1 < c_n_spks self)%Z
         /\ exists v, tensor_long (f_spks a) = Ok v /\ b_spks b = Some v)
        \/ ((c_n_spks self <= 1)%Z /\ b_spks b = None)).
Proof.
  unfold collate_call. intros H.
  destruct (collate_fill zero num_downsamplings batch) as [a | e];
    [| inversion H].
  unfold collate_finish, batched_encodec in H.
  destruct (get_codes self) eqn:G.
  - cbn [encodec_training] in H.
    destruct (encodec false (f_wav a)) as [c | e] eqn:Ec; cbn [bind] in H;
      [| inversion H].
    destruct (squeeze_transpose c) as [c' | e] eqn:Es; cbn [bind] in H;
      [| inversion H].
    exists a, c. split; [reflexivity |].
    destruct (Z.ltb_spec 1 (c_n_spks self)) as [Hs | Hs].
    + destruct (tensor_long (f_spks a)) as [v | e] eqn:Et; cbn [bind read_local] in H;
        [| inversion H].
      inversion H; subst; cbn. repeat split; try assumption.
      left. split; [exact Hs |]. exists v. auto.
    + cbn [bind read_local] in H. inversion H; subst; cbn.
      repeat split; try assumption. right. auto.
  - cbn [bind read_local] in H.
    destruct (1 <? c_n_spks self)%Z; cbn [bind] in H;
      [destruct (tensor_long (f_spks a)); cbn [bind] in H |]; inversion H.
Qed.

Lemma collate_fill_spec_x (batch : list (Sample F)) (a : Filled F) :
  collate_fill zero num_downsamplings batch = Ok a ->
  exists mx,
    py_max (map (fun item => length (s_x item)) batch) = Ok mx
    /\ shape2 (f_x a) = (length batch, mx)
    /\ length (data2 (f_x a)) = length batch
    /\ length (data3 (f_y a)) = length batch
    /\ length (data3 (f_wav a)) = length batch
    /\ f_x_lengths a = map (fun it => length (s_x it)) batch
    /\ (forall i item, nth_error batch i = Some item ->
          nth_error (data2 (f_x a)) i
          = Some (s_x item ++ repeat 0%Z (mx - length (s_x item)))).
Proof.
  unfold collate_fill. intros H.
  bind_inv H. bind_inv H. bind_inv H. rename v0 into mx.
  exists mx. split; [assumption |].
  destruct (loop_x _ _ _ _ H) as [Hs [Hlx [Hly [Hlw [Hl [_ Hj]]]]]].
  cbn [f_x f_y f_wav f_x_lengths zeros2 zeros3 shape2 data2 data3 app] in *.
  rewrite repeat_length in Hlx, Hly, Hlw.
  repeat split; try assumption.
  intros i item Hi. destruct (Hj i item Hi) as [row [Hrow Hp]].
  cbn [Nat.add] in *. apply nth_error_In, repeat_spec in Hrow. subst row.
  rewrite Hp. f_equal.
  assert (Hle : length (s_x item) <= mx).
  { apply py_max_spec in E0. destruct E0 as [Hall _].
    rewrite Forall_forall in Hall. apply Hall, in_map_iff.
    exists item. split; [reflexivity | eapply nth_error_In; eassumption]. }
  unfold last_dim2. cbn [shape2 snd].
  rewrite Nat.min_l by exact Hle. rewrite expand_same by reflexivity.
  unfold overwrite. rewrite skipn_repeat. reflexivity.
Qed.

(** X10: in every returned batch the symbol tensor has one row per item
    and as many columns as the longest symbol sequence; row i is the item's
    symbols followed by zeros, and x_lengths[i] is the item's number of
    symbols. *)
Theorem collate_symbols_padded :
  forall (self self' : TextMelBatchCollate) (batch : list (Sample F))
         (b : Batch F C),
    collate_ self batch = (Ok b, self') ->
    exists x_max_length,
      py_max (map (fun item => length (s_x item)) batch) = Ok x_max_length
      /\ shape2 (b_x b) = (length batch, x_max_length)
      /\ b_x_lengths b = map (fun item => length (s_x item)) batch
      /\ (forall i item, nth_error batch i = Some item ->
            nth_error (data2 (b_x b)) i
            = Some (s_x item ++ repeat 0%Z (x_max_length - length (s_x item)))).
Proof.
  intros self self' batch b H.
  apply collate_call_inv_full in H.
  destruct H as [a [c [Hfill [Hx [Hxl _]]]]].
  apply collate_fill_spec_x in Hfill.
  destruct Hfill as [mx [Hmx [Hs [_ [_ [_ [Hl Hrows]]]]]]].
  exists mx. rewrite Hx, Hxl. auto.
Qed.

(** X11: which batches the collator refuses. An empty batch raises
    ValueError. A batch is returned only if every item has one audio channel
    and a mel with as many rows as the first item's, or with a single row. *)
Theorem collate_accepts_only :
  (forall self : TextMelBatchCollate, collate_ self [] = (Err ValueError, self))
  /\ (forall (self self' : TextMelBatchCollate) (batch : list (Sample F))
             (b : Batch F C),
        collate_ self batch = (Ok b, self') ->
        exists first,
          nth_error batch 0 = Some first
          /\ forall item, In item batch ->
               rows_dim2 (s_wav item) = 1
               /\ (rows_dim2 (s_y item) = rows_dim2 (s_y first)
                   \/ rows_dim2 (s_y item) = 1)).
Proof.
  split; [reflexivity |].
  intros self self' batch b H.
  apply collate_call_inv in H. destruct H as [a [Hfill _]].
  apply collate_fill_spec in Hfill.
  destruct Hfill as [m [first [_ [Hfirst [_ [_ [_ [_ Hitems]]]]]]]].
  exists first. split; [exact Hfirst |].
  intros item Hin. apply In_nth_error in Hin. destruct Hin as [i Hi].
  destruct (Hitems i item Hi) as [By [_ [Bw _]]].
  unfold broadcasts in By, Bw. split.
  - unfold truncated_wav, slice_cols, rows_dim2 in Bw. unfold rows_dim2.
    destruct (_ <? last_dim2 (s_wav item)); cbn [shape2 fst] in Bw;
      apply orb_prop in Bw; destruct Bw as [Bw | Bw];
      apply Nat.eqb_eq in Bw; exact Bw.
  - apply orb_prop in By. destruct By as [By | By]; apply Nat.eqb_eq in By;
      [left | right]; exact By.
Qed.

(** X12: every returned batch has one entry per item everywhere: the three
    tensors have first dimension B = len(batch) and hold B entries, the mel
    tensor has the first item's number of rows, the waveform tensor one
    channel, and the four length arrays have B entries. *)
Theorem collate_batch_sizes :
  forall (self self' : TextMelBatchCollate) (batch : list (Sample F))
         (b : Batch F C),
    collate_ self batch = (Ok b, self') ->
    let B := length batch in
    exists first codes_lengths,
      nth_error batch 0 = Some first
      /\ fst (fst (shape3 (b_y b))) = B
      /\ snd (fst (shape3 (b_y b))) = rows_dim2 (s_y first)
      /\ fst (shape2 (b_x b)) = B
      /\ fst (shape3 (b_wav b)) = (B, 1)
      /\ length (data3 (b_y b)) = B
      /\ length (data2 (b_x b)) = B
      /\ length (data3 (b_wav b)) = B
      /\ length (b_x_lengths b) = B
      /\ length (b_y_lengths b) = B
      /\ length (b_wav_lengths b) = B
      /\ b_codes_lengths b = Some codes_lengths
      /\ length codes_lengths = B.
Proof.
  intros self self' batch b H. cbv zeta.
  pose proof H as H0. apply collate_call_inv in H0.
  destruct H0 as [a0 [Hfill0 [_ [_ [_ [_ [_ [Hcl _]]]]]]]].
  apply collate_call_inv_full in H.
  destruct H as [a [c [Hfill [Hx [Hxl [Hy [Hw [Hyl [Hwl _]]]]]]]]].
  rewrite Hfill in Hfill0. inversion Hfill0; subst a0.
  pose proof Hfill as Hspec. apply collate_fill_spec in Hspec.
  destruct Hspec as [m [first [_ [Hfirst [Hsy [Hsw [Hly [Hlw _]]]]]]]].
  pose proof Hfill as Hspecx. apply collate_fill_spec_x in Hspecx.
  destruct Hspecx as [mx [_ [Hsx [Hdx [Hdy [Hdw [Hlx _]]]]]]].
  exists first, (map (fun wav_len => 1 + wav_len / 320) (f_wav_lengths a)).
  split; [exact Hfirst |].
  rewrite Hx, Hxl, Hy, Hw, Hyl, Hwl, Hsy, Hsx, Hsw, Hly, Hlx, Hcl.
  rewrite Hlw, !length_map. cbn [fst snd]. repeat split; assumption.
Qed.

Lemma pasted_zero (B n w : nat) (src : Tensor2 F) :
  well_shaped2 src = true -> rows_dim2 src = n -> last_dim2 src <= w ->
  pasted (B, n, w) (repeat (repeat zero w) n) src
  = map (fun r => r ++ repeat zero (w - last_dim2 src)) (data2 src).
Proof.
  intros Hws Hn Hw. unfold pasted. cbn [fst snd].
  rewrite Nat.min_l by exact Hw.
  unfold well_shaped2 in Hws. unfold rows_dim2 in Hn. rewrite Hn in Hws.
  exact (@paste_rows_zero _ zero _ _ _ _ Hws).
Qed.

Lemma truncated_wav_well_shaped (wml : nat) (item : Sample F) :
  well_shaped2 (s_wav item) = true ->
  well_shaped2 (truncated_wav wml item) = true
  /\ rows_dim2 (truncated_wav wml item) = rows_dim2 (s_wav item).
Proof.
  intros H. unfold truncated_wav.
  destruct (wml <? last_dim2 (s_wav item)); split;
    try reflexivity; try exact H. apply slice_cols_well_shaped. exact H.
Qed.

(** X13: for a batch of samples built for one dataset (rectangular mels
    with a common number of rows, rectangular one-channel audio), the three
    tensors of a returned batch are rectangular: their entries fill exactly
    the shapes they announce. *)
Theorem collate_tensors_rectangular :
  forall (self self' : TextMelBatchCollate) (batch : list (Sample F))
         (b : Batch F C) (n_mels : nat),
    Forall (fun item => sample_ok n_mels item = true) batch ->
    collate_ self batch = (Ok b, self') ->
    well_shaped3 (b_y b) = true
    /\ well_shaped3 (b_wav b) = true
    /\ well_shaped2 (b_x b) = true.
Proof.
  intros self self' batch b n_mels Hok H.
  apply collate_call_inv_full in H.
  destruct H as [a [c [Hfill [Hx [_ [Hy [Hw _]]]]]]].
  pose proof Hfill as Hspec. apply collate_fill_spec in Hspec.
  destruct Hspec as [m [first [Hm [Hfirst [Hsy [Hsw [_ [_ Hitems]]]]]]]].
  pose proof Hfill as Hspecx. apply collate_fill_spec_x in Hspecx.
  destruct Hspecx as [mx [Hmx [Hsx [Hdx [Hdy [Hdw [_ Hrows]]]]]]].
  rewrite Hx, Hy, Hw. rewrite Forall_forall in Hok.
  assert (Hitem : forall i v (data : list v), i < length batch ->
                    exists item, nth_error batch i = Some item /\ In item batch).
  { intros i v data Hi. destruct (nth_error batch i) as [item |] eqn:E.
    - exists item. split; [reflexivity | eapply nth_error_In; exact E].
    - apply nth_error_None in E. lia. }
  assert (Hnf : rows_dim2 (s_y first) = n_mels).
  { apply (sample_ok_inv _ _ (Hok first (nth_error_In _ _ Hfirst))). }
  split; [| split].
  - unfold well_shaped3. rewrite Hsy, Hdy, Nat.eqb_refl. cbn [andb].
    apply forallb_nth. intros i v Hv.
    assert (Hi : i < length batch)
      by (rewrite <- Hdy; apply nth_error_Some; congruence).
    destruct (Hitem i _ (@nil nat) Hi) as [item [Hit Hin]].
    destruct (Hitems i item Hit) as [_ [Hp _]].
    rewrite Hp in Hv. inversion Hv; subst v.
    destruct (sample_ok_inv _ _ (Hok item Hin)) as [Hwy [Hny _]].
    pose proof (@mel_length_le_max _ num_downsamplings _ _ _ _ Hm Hit) as Hle.
    rewrite pasted_zero; [| exact Hwy | congruence | exact Hle].
    apply padded_rows_well_shaped; [| exact Hle].
    unfold well_shaped2 in Hwy. unfold rows_dim2, last_dim2 in *.
    congruence.
  - unfold well_shaped3. rewrite Hsw, Hdw, Nat.eqb_refl. cbn [andb].
    apply forallb_nth. intros i v Hv.
    assert (Hi : i < length batch)
      by (rewrite <- Hdw; apply nth_error_Some; congruence).
    destruct (Hitem i _ (@nil nat) Hi) as [item [Hit Hin]].
    destruct (Hitems i item Hit) as [_ [_ [_ Hp]]].
    rewrite Hp in Hv. inversion Hv; subst v.
    destruct (sample_ok_inv _ _ (Hok item Hin)) as [_ [_ [Hww Hch]]].
    set (Tw := fix_len_compatibility num_downsamplings m * 256) in *.
    destruct (@truncated_wav_well_shaped Tw item Hww) as [Hwst Hrt].
    assert (Hle : last_dim2 (truncated_wav Tw item) <= Tw)
      by (rewrite truncated_wav_last_dim; lia).
    rewrite pasted_zero; [| exact Hwst | congruence | exact Hle].
    apply padded_rows_well_shaped; [| exact Hle].
    unfold well_shaped2 in Hwst. unfold rows_dim2, last_dim2 in *.
    replace 1 with (fst (shape2 (truncated_wav Tw item))) by congruence.
    exact Hwst.
  - unfold well_shaped2, well_shaped_rows. rewrite Hsx. cbn [fst snd].
    rewrite Hdx, Nat.eqb_refl. cbn [andb].
    apply forallb_nth. intros i v Hv.
    assert (Hi : i < length batch)
      by (rewrite <- Hdx; apply nth_error_Some; congruence).
    destruct (Hitem i _ (@nil nat) Hi) as [item [Hit Hin]].
    rewrite (Hrows i item Hit) in Hv. inversion Hv; subst v.
    apply Nat.eqb_eq. rewrite length_app, repeat_length.
    apply py_max_spec in Hmx. destruct Hmx as [Hall _].
    rewrite Forall_forall in Hall.
    assert (length (s_x item) <= mx)
      by (apply Hall, in_map_iff; exists item; split; [reflexivity | exact Hin]).
    lia.
Qed.

Lemma tensor_long_spec (spks : list (option Z)) (v : list Z) :
  tensor_long spks = Ok v ->
  map Some v = spks
  /\ Forall (fun id => (int64_min <= id <= int64_max)%Z) v.
Proof.
  unfold tensor_long. revert v.
  induction spks as [| s spks IH]; intros v H; simpl in H.
  - inversion H. split; [reflexivity | constructor].
  - bind_inv H. bind_inv H. inversion H; subst v.
    destruct s as [id |]; [| discriminate].
    destruct (Z.leb_spec int64_min id), (Z.leb_spec id int64_max);
      cbn [andb] in E; try discriminate.
    inversion E; subst v0. destruct (IH _ E0) as [Hm Hf].
    split; [simpl; rewrite Hm; reflexivity |].
    constructor; [lia | exact Hf].
Qed.

(** X14: the speaker array. With n_spks > 1 a returned batch carries the
    speaker ids of its items, in batch order, every item had one and each
    fits 64 bits; with n_spks <= 1 the field is None even when the items
    carry speaker ids. *)
Theorem collate_speakers :
  forall (self self' : TextMelBatchCollate) (batch : list (Sample F))
         (b : Batch F C),
    collate_ self batch = (Ok b, self') ->
    ((1 < c_n_spks self)%Z ->
       exists ids,
         b_spks b = Some ids
         /\ map Some ids = map (@s_spk F) batch
         /\ Forall (fun id => (int64_min <= id <= int64_max)%Z) ids)
    /\ ((c_n_spks self <= 1)%Z -> b_spks b = None).
Proof.
  intros self self' batch b H.
  apply collate_call_inv_full in H.
  destruct H as [a [c [Hfill [_ [_ [_ [_ [_ [_ [_ [_ [_ [_ [_ [_ [_ Hspk]]]]]]]]]]]]]]]].
  apply collate_fill_inv in Hfill.
  destruct Hfill as [m [mx [first [_ [_ Hloop]]]]].
  apply loop_lists in Hloop. destruct Hloop as [_ [_ Hs]].
  cbn [f_spks app] in Hs.
  destruct Hspk as [[Hn [v [Hv Hb]]] | [Hn Hb]]; split; intros Hn';
    try lia; [| exact Hb].
  rewrite Hs in Hv. apply tensor_long_spec in Hv. destruct Hv as [Hm Hf].
  exists v. auto.
Qed.

(** X15: where the codes of a returned batch come from, and what the call
    leaves behind: the codes are the codec's answer, in evaluation mode, on
    the padded waveform tensor of the batch itself, then squeezed and
    transposed; the four prompt fields are the mel tensor, the mel lengths,
    the codes and the code lengths again; and the collator keeps n_spks and
    get_codes and has its codec in evaluation mode. *)
Theorem collate_codes_of_padded_wav :
  forall (self self' : TextMelBatchCollate) (batch : list (Sample F))
         (b : Batch F C),
    collate_ self batch = (Ok b, self') ->
    (exists c, encodec false (b_wav b) = Ok c
               /\ squeeze_transpose c = Ok (b_codes b))
    /\ b_prompt_spec b = b_y b
    /\ b_prompt_lengths b = b_y_lengths b
    /\ b_prompt_codes b = b_codes b
    /\ b_prompt_codes_lengths b = b_codes_lengths b
    /\ encodec_training self' = false
    /\ c_n_spks self' = c_n_spks self
    /\ get_codes self' = get_codes self.
Proof.
  intros self self' batch b H.
  apply collate_call_inv_full in H.
  destruct H
    as [a [c [_ [_ [_ [Hy [Hw [Hyl [_ [Hc [Hsq [Hps [Hpl [Hpc [Hpcl [Hself _]]]]]]]]]]]]]]]].
  subst self'. cbn [encodec_training c_n_spks get_codes].
  split; [exists c; rewrite Hw; auto |].
  repeat split; congruence.
Qed.

(** X16: an error of the codec is the error of the call. For a non-empty
    batch of samples built for one dataset and a collator with code
    extraction on, a codec that raises [e] makes the call raise [e], before
    any speaker id is converted, and leaves the codec in evaluation mode. *)
Theorem collate_codec_error :
  forall (self : TextMelBatchCollate) (batch : list (Sample F))
         (n_mels : nat) (e : error),
    batch <> [] ->
    Forall (fun item => sample_ok n_mels item = true) batch ->
    get_codes self = true ->
    (forall wav, encodec false wav = Err e) ->
    collate_ self batch
    = (Err e, {| c_n_spks := c_n_spks self; get_codes := true;
                 encodec_training := false |}).
Proof.
  intros self batch n_mels e Hne Hok Hg Herr.
  set (plain := {| c_n_spks := 0; get_codes := true; encodec_training := true |}).
  assert (Hplain : (c_n_spks plain <= 1)%Z
                   \/ exists v, tensor_long (map (@s_spk F) batch) = Ok v)
    by (left; cbn; lia).
  destruct (@collate_call_returns F zero num_downsamplings unit
              (fun _ _ => Ok tt) (fun c => Ok c) plain
              batch n_mels Hne Hok eq_refl
              (fun wav => ex_intro _ tt (ex_intro _ tt (conj eq_refl eq_refl)))
              Hplain)
    as [b0 [s0 H0]].
  apply collate_call_inv in H0. destruct H0 as [a [Hfill _]].
  unfold collate_call. rewrite Hfill.
  unfold collate_finish, batched_encodec. rewrite Hg.
  cbn [encodec_training]. rewrite Herr. reflexivity.
Qed.

End CollateFurther.

Lemma batch_pair_sample_ok :
  Forall (fun item => sample_ok 2 item = true) batch_pair.
Proof. repeat constructor. Qed.

Lemma collate_symbols_padded_witness :
  exists b s,
    collate_demo hparams_256 batch_pair = (Ok b, s)
    /\ b_x_lengths b = [3; 2]
    /\ nth_error (data2 (b_x b)) 1 = Some [1; 2; 0]%Z.
Proof.
  destruct (collate_demo hparams_256 batch_pair) as [[b | e] s] eqn:E;
    [| vm_compute in E; discriminate E].
  exists b, s. split; [reflexivity |].
  destruct (@collate_symbols_padded Z 0%Z 2 nat codec_demo
              squeeze_transpose_demo _ _ _ _ E)
    as [mx [Hmx [_ [Hl Hrows]]]].
  split; [exact Hl |].
  rewrite (Hrows 1 sample_long eq_refl).
  vm_compute in Hmx. inversion Hmx. reflexivity.
Defined.

Lemma collate_batch_sizes_witness :
  exists b s,
    collate_demo hparams_256 batch_pair = (Ok b, s)
    /\ length (data3 (b_y b)) = 2
    /\ length (b_wav_lengths b) = 2.
Proof.
  destruct (collate_demo hparams_256 batch_pair) as [[b | e] s] eqn:E;
    [| vm_compute in E; discriminate E].
  exists b, s. split; [reflexivity |].
  destruct (@collate_batch_sizes Z 0%Z 2 nat codec_demo
              squeeze_transpose_demo _ _ _ _ E)
    as [first [cl [_ [_ [_ [_ [_ [Hy [_ [_ [_ [_ [Hw _]]]]]]]]]]]]].
  split; [exact Hy | exact Hw].
Defined.

Lemma collate_tensors_rectangular_witness :
  exists b s,
    collate_demo hparams_256 batch_pair = (Ok b, s)
    /\ well_shaped3 (b_y b) = true
    /\ well_shaped3 (b_wav b) = true
    /\ well_shaped2 (b_x b) = true.
Proof.
  destruct (collate_demo hparams_256 batch_pair) as [[b | e] s] eqn:E;
    [| vm_compute in E; discriminate E].
  exists b, s. split; [reflexivity |].
  exact (@collate_tensors_rectangular Z 0%Z 2 nat codec_demo
           squeeze_transpose_demo _ _ _ _ 2 batch_pair_sample_ok E).
Defined.

Lemma collate_speakers_witness :
  exists b s,
    collate_call 0%Z 2 codec_demo squeeze_transpose_demo
      (TextMelBatchCollate_init 2 true) batch_spk = (Ok b, s)
    /\ b_spks b = Some [4; 0]%Z.
Proof.
  destruct (collate_call 0%Z 2 codec_demo squeeze_transpose_demo
              (TextMelBatchCollate_init 2 true) batch_spk)
    as [[b | e] s] eqn:E; [| vm_compute in E; discriminate E].
  exists b, s. split; [reflexivity |].
  destruct (proj1 (@collate_speakers Z 0%Z 2 nat codec_demo
                     squeeze_transpose_demo _ _ _ _ E) eq_refl)
    as [ids [Hb [Hm _]]].
  rewrite Hb. f_equal.
  destruct ids as [| i0 [| i1 [| i2 ids]]]; try discriminate Hm.
  inversion Hm. reflexivity.
Defined.

Lemma collate_codes_of_padded_wav_witness :
  exists b s,
    collate_demo hparams_256 batch_pair = (Ok b, s)
    /\ codec_demo false (b_wav b) = Ok (b_codes b)
    /\ encodec_training s = false.
Proof.
  destruct (collate_demo hparams_256 batch_pair) as [[b | e] s] eqn:E;
    [| vm_compute in E; discriminate E].
  exists b, s. split; [reflexivity |].
  destruct (@collate_codes_of_padded_wav Z 0%Z 2 nat codec_demo
              squeeze_transpose_demo _ _ _ _ E)
    as [[c [Hc Hsq]] [_ [_ [_ [_ [Ht _]]]]]].
  split; [| exact Ht].
  inversion Hsq; subst. exact Hc.
Defined.

Lemma collate_codec_error_witness :
  fst (collate_call 0%Z 2 codec_broken squeeze_transpose_demo
         (TextMelBatchCollate_init 1 true) batch_pair)
  = Err ExternalError.
Proof.
  rewrite (@collate_codec_error Z 0%Z 2 nat codec_broken
             squeeze_transpose_demo (TextMelBatchCollate_init 1 true)
             batch_pair 2 ExternalError ltac:(discriminate)
             batch_pair_sample_ok eq_refl (fun wav => eq_refl)).
  reflexivity.
Defined.
